(** * wimprates.elastic_nr: elastic nuclear recoil rates

    A shallow embedding of [wimprates/elastic_nr.py] and the properties of
    its kinematics, form factor, cross section and rate functions.

    Numbers.  Python floats and numpy float64 values are modelled by
    [float]: a real number, one of the two infinities, or NaN.  Arithmetic
    on finite values is exact real arithmetic: rounding, overflow and
    underflow are outside the model.  What the model keeps of IEEE
    arithmetic is what the code observes: [float('inf')] as a mediator
    mass, the ZeroDivisionError of Python's [/] on a zero divisor, and the
    inf/nan that numpy's division returns in the same situation.

    Scalar arguments are taken to be Python floats, so a division whose
    operands come from the arguments only is Python's ([py_div]); a
    division with an operand that a numpy function produced is numpy's
    ([np_div]). *)

From Stdlib Require Import Reals Lra Lia List String Ascii ZArith Bool.
Import ListNotations.

Open Scope R_scope.

(** ** Floating-point values *)

Inductive float : Type :=
| Fin (r : R)
| PInf
| NInf
| NaN.

Declare Scope float_scope.
Delimit Scope float_scope with fl.
Bind Scope float_scope with float.

Definition is_finite (x : float) : bool :=
  match x with Fin _ => true | _ => false end.

(** The infinity a nonzero finite value turns into when it is multiplied
    by +inf (or divided by zero); zero gives NaN. *)
Definition inf_of_sign (r : R) : float :=
  if Req_dec_T r 0 then NaN
  else if Rlt_dec 0 r then PInf else NInf.

Definition fneg (x : float) : float :=
  match x with
  | Fin r => Fin (- r)
  | PInf => NInf
  | NInf => PInf
  | NaN => NaN
  end.

Definition fadd (x y : float) : float :=
  match x, y with
  | NaN, _ | _, NaN => NaN
  | Fin a, Fin b => Fin (a + b)
  | PInf, NInf | NInf, PInf => NaN
  | PInf, _ | _, PInf => PInf
  | NInf, _ | _, NInf => NInf
  end.

Definition fsub (x y : float) : float := fadd x (fneg y).

Definition fabs (x : float) : float :=
  match x with
  | Fin r => Fin (Rabs r)
  | PInf | NInf => PInf
  | NaN => NaN
  end.

Definition fmul (x y : float) : float :=
  match x, y with
  | NaN, _ | _, NaN => NaN
  | Fin a, Fin b => Fin (a * b)
  | Fin a, PInf | PInf, Fin a => inf_of_sign a
  | Fin a, NInf | NInf, Fin a => fneg (inf_of_sign a)
  | PInf, PInf | NInf, NInf => PInf
  | PInf, NInf | NInf, PInf => NInf
  end.

(** numpy's float64 division: a zero divisor gives inf or nan (and a
    RuntimeWarning), never an exception. *)
Definition np_div (x y : float) : float :=
  match x, y with
  | NaN, _ | _, NaN => NaN
  | Fin a, Fin b => if Req_dec_T b 0 then inf_of_sign a else Fin (a / b)
  | Fin _, PInf | Fin _, NInf => Fin 0
  | PInf, Fin b => if Rlt_dec b 0 then NInf else PInf
  | NInf, Fin b => if Rlt_dec b 0 then PInf else NInf
  | _, _ => NaN
  end.

(** [x ** k] for a literal natural exponent. *)
Fixpoint fpow (x : float) (k : nat) : float :=
  match k with
  | O => Fin 1
  | S k' => fmul x (fpow x k')
  end.

Definition np_sqrt (x : float) : float :=
  match x with
  | Fin r => if Rlt_dec r 0 then NaN else Fin (sqrt r)
  | PInf => PInf
  | _ => NaN
  end.

Definition np_sin (x : float) : float :=
  match x with Fin r => Fin (sin r) | _ => NaN end.

Definition np_cos (x : float) : float :=
  match x with Fin r => Fin (cos r) | _ => NaN end.

Definition np_exp (x : float) : float :=
  match x with
  | Fin r => Fin (exp r)
  | PInf => PInf
  | NInf => Fin 0
  | NaN => NaN
  end.

(** Comparisons; every comparison with NaN is false. *)
Definition fle (x y : float) : bool :=
  match x, y with
  | NaN, _ | _, NaN => false
  | Fin a, Fin b => if Rle_dec a b then true else false
  | NInf, _ | _, PInf => true
  | _, _ => false
  end.

Definition fge (x y : float) : bool := fle y x.

Definition feqb (x y : float) : bool :=
  match x, y with
  | Fin a, Fin b => if Req_dec_T a b then true else false
  | PInf, PInf | NInf, NInf => true
  | _, _ => false
  end.

Infix "+" := fadd : float_scope.
Infix "-" := fsub : float_scope.
Infix "*" := fmul : float_scope.
Infix "<=?" := fle : float_scope.
Infix ">=?" := fge : float_scope.
Infix "=?" := feqb : float_scope.

(** ** Exceptions and the result monad *)

(** Keys of the dictionaries of the module: a material or pickle entry
    name, or a structure-function key [(A, coupling, assumption)]. *)
Inductive dict_key : Type :=
| KStr (s : string)
| KSF (A : Z) (coupling assumption : string).

(** The ValueErrors of the module, by what raises them:
    - [InvalidA]: "Invalid value of A!" (helm_form_factor_squared);
    - [UnsupportedInteraction s]: "Unsupported DM-nucleus interaction 's'";
    - [MomentumParams n q_ref]: "Both n and q_ref should be given for
      momentum dependent models. Now n=.., q_ref=..";
    - [NotEnoughValues e g]: "not enough values to unpack (expected e, got g)";
    - [TooManyValues e]: "too many values to unpack (expected e)". *)
Inductive value_error : Type :=
| InvalidA
| UnsupportedInteraction (interaction : string)
| MomentumParams (n q_ref : option float)
| NotEnoughValues (expected got : nat)
| TooManyValues (expected : nat).

Inductive exn : Type :=
| ValueError (v : value_error)
| NotImplementedError (msg : string)
| KeyError (k : dict_key)
| ZeroDivisionError
| ComplexResult.
(** [ComplexResult] is not a Python exception: a negative float raised to
    a fractional power is a complex number in Python 3, a value this model
    has no room for; the model stops there. *)

Inductive result (A : Type) : Type :=
| Ok (a : A)
| Raise (e : exn).

Arguments Ok {A} a.
Arguments Raise {A} e.

Definition bind {A B : Type} (m : result A) (k : A -> result B) : result B :=
  match m with
  | Ok a => k a
  | Raise e => Raise e
  end.

Declare Scope result_scope.
Delimit Scope result_scope with res.
Notation "x <- m ;; k" := (bind m (fun x => k))
  (at level 61, m at next level, right associativity) : result_scope.
Notation "' pat <- m ;; k" := (bind m (fun x => let 'pat := x in k))
  (at level 61, pat pattern, m at next level, right associativity)
  : result_scope.
Open Scope result_scope.

(** Python's [/] on floats. *)
Definition py_div (x y : float) : result float :=
  match y with
  | Fin b => if Req_dec_T b 0 then Raise ZeroDivisionError else Ok (np_div x y)
  | _ => Ok (np_div x y)
  end.

Definition is_integral (e : R) : bool :=
  if Req_dec_T (IZR (Int_part e)) e then true else false.

Definition is_odd_integer (e : R) : bool :=
  is_integral e && Z.odd (Int_part e).

(** Python's [v ** w] on floats, case by case as [float_pow] sorts them
    out: [v ** 0] is 1; NaN operands; an infinite exponent; an infinite
    base; base zero (ZeroDivisionError for a negative exponent); a
    negative base, which has a float result only for an integral
    exponent; and the real power otherwise. *)
Definition py_pow (v w : float) : result float :=
  if (w =? Fin 0)%fl then Ok (Fin 1) else
  match v, w with
  | NaN, _ => Ok NaN
  | _, NaN => if (v =? Fin 1)%fl then Ok (Fin 1) else Ok NaN
  | _, PInf | _, NInf =>
      let a := fabs v in
      if (a =? Fin 1)%fl then Ok (Fin 1)
      else if Bool.eqb (w =? PInf)%fl (negb (a <=? Fin 1)%fl) then Ok PInf
      else Ok (Fin 0)
  | PInf, Fin e | NInf, Fin e =>
      if Rlt_dec 0 e then Ok (if is_odd_integer e then v else PInf)
      else Ok (Fin 0)
  | Fin b, Fin e =>
      if Req_dec_T b 0 then
        if Rlt_dec e 0 then Raise ZeroDivisionError else Ok (Fin 0)
      else if Rlt_dec b 0 then
        if is_integral e then Ok (Fin (powerRZ b (Int_part e)))
        else Raise ComplexResult
      else Ok (Fin (Rpower b e))
  end.

(** ** Dictionaries with insertion order *)

Fixpoint dict_lookup {V : Type} (d : list (string * V)) (k : string) : option V :=
  match d with
  | [] => None
  | (k', v) :: d' => if String.eqb k' k then Some v else dict_lookup d' k
  end.

(** [d[k]]: KeyError when the key is missing. *)
Definition dict_get {V : Type} (d : list (string * V)) (k : string) : result V :=
  match dict_lookup d k with
  | Some v => Ok v
  | None => Raise (KeyError (KStr k))
  end.

(** ** The unit system (numericalunits) *)

Record Units : Type := {
  keV : R; MeV : R; GeV : R;
  c0 : R;
  amu : R;
  mp : R
}.

Definition units_positive (nu : Units) : Prop :=
  0 < keV nu /\ 0 < MeV nu /\ 0 < GeV nu /\ 0 < c0 nu /\ 0 < amu nu /\ 0 < mp nu.

Definition ATOMIC_WEIGHT : list (string * R) :=
  [ ("Xe"%string, 131.293);
    ("Ar"%string, 39.948);
    ("Ge"%string, 72.64);
    ("Si"%string, 28.0855) ].

Section Kinematics.

Variable nu : Units.

(** Reference momentum for MDDM: [10000 * nu.MeV / nu.c0]. *)
Definition Q_REF : result float :=
  py_div (Fin 10000 * Fin (MeV nu))%fl (Fin (c0 nu)).

(** Mass of nucleus (not nucleon!) *)
Definition mn (material : string) : result float :=
  w <- dict_get ATOMIC_WEIGHT material ;;
  Ok (Fin w * Fin (amu nu))%fl.

Definition reduced_mass (m1 m2 : float) : result float :=
  py_div (m1 * m2)%fl (m1 + m2)%fl.

(** DM-nucleus reduced mass *)
Definition mu_nucleus (mw : float) (material : string) : result float :=
  m <- mn material ;;
  reduced_mass mw m.

(** Kinematic nuclear recoil energy maximum *)
Definition e_max (mw v : float) (m_nucleus : option float) : result float :=
  m_nucleus <- match m_nucleus with
               | None => mn "Xe"
               | Some m => Ok m
               end ;;
  mu <- reduced_mass mw m_nucleus ;;
  py_div (Fin 2 * fpow mu 2 * fpow v 2)%fl m_nucleus.

(** Minimum WIMP velocity that can produce a recoil of energy erec *)
Definition vmin_elastic (erec mw : float) (material : string) : result float :=
  m <- mn material ;;
  mu <- mu_nucleus mw material ;;
  r <- py_div (m * erec)%fl (Fin 2 * fpow mu 2)%fl ;;
  Ok (np_sqrt r).

End Kinematics.

(** ** Form factor *)

Section FormFactor.

Variable nu : Units.

(** Spherical Bessel function j1 according to Wolfram Alpha *)
Definition spherical_bessel_j1 (x : float) : float :=
  (np_div (np_sin x) (fpow x 2) - np_div (np_cos x) x)%fl.

(** Helm form factor squared from Lewin & Smith (the body that
    [vectorize_first] wraps, on one recoil energy). *)
Definition helm_form_factor_squared (erec anucl : float) : result float :=
  en <- py_div erec (Fin (keV nu)) ;;
  if (anucl <=? Fin 0)%fl then Raise (ValueError InvalidA) else
  (* First we get rn squared, in fm *)
  d <- py_div (Fin (GeV nu)) (fpow (Fin (c0 nu)) 2) ;;
  mnucl <- py_div (Fin (amu nu)) d ;;
  let pi := Fin PI in
  p <- py_pow anucl (Fin (1 / 3)) ;;
  let c := (Fin 1.23 * p - Fin 0.60)%fl in
  let a := Fin 0.52 in
  let s := Fin 0.9 in
  let rn_sq := (fpow c 2 + Fin (7.0 / 3.0) * fpow pi 2 * fpow a 2
                - Fin 5 * fpow s 2)%fl in
  let rn := np_sqrt rn_sq in
  let mass_kev := (anucl * mnucl * Fin 1000000)%fl in
  let hbarc_kevfm := Fin 197327 in
  let q := np_sqrt (en * Fin 2 * mass_kev)%fl in
  let qrn_over_hbarc := np_div (q * rn)%fl hbarc_kevfm in
  let sph_bess := spherical_bessel_j1 qrn_over_hbarc in
  let retval := np_div (Fin 9 * sph_bess * sph_bess)%fl
                       (qrn_over_hbarc * qrn_over_hbarc)%fl in
  let qs_over_hbarc := np_div (q * s)%fl hbarc_kevfm in
  let retval := (retval * np_exp (fneg qs_over_hbarc * qs_over_hbarc))%fl in
  Ok retval.

End FormFactor.

(** ** Spin-dependent structure functions *)

Definition key_eqb (k1 k2 : dict_key) : bool :=
  match k1, k2 with
  | KStr s1, KStr s2 => String.eqb s1 s2
  | KSF A1 c1 a1, KSF A2 c2 a2 =>
      Z.eqb A1 A2 && String.eqb c1 c2 && String.eqb a1 a2
  | _, _ => false
  end.

Fixpoint key_lookup {V : Type} (d : list (dict_key * V)) (k : dict_key) : option V :=
  match d with
  | [] => None
  | (k', v) :: d' => if key_eqb k' k then Some v else key_lookup d' k
  end.

Definition key_get {V : Type} (d : list (dict_key * V)) (k : dict_key) : result V :=
  match key_lookup d k with
  | Some v => Ok v
  | None => Raise (KeyError k)
  end.

(** [d[k] = v]: an existing key keeps its place, a new one goes last. *)
Fixpoint key_set {V : Type} (d : list (dict_key * V)) (k : dict_key) (v : V)
  : list (dict_key * V) :=
  match d with
  | [] => [(k, v)]
  | (k', v') :: d' =>
      if key_eqb k' k then (k', v) :: d' else (k', v') :: key_set d' k v
  end.

(** scipy.interpolate.interp1d, linear, as the module uses it
    ([bounds_error=False] and a scalar [fill_value]).  The constructor
    sorts the samples by abscissa (a stable sort); a call locates the
    argument with searchsorted, interpolates between the two neighbouring
    samples, and replaces the value by [fill_value] when the argument is
    below the first or above the last abscissa. *)
Record interp : Type := {
  ix : list R;
  iy : list R;
  fill_value : float
}.

(** Insertion of a sample before the first one whose abscissa is not
    smaller: samples of equal abscissa keep their order, as in the stable
    argsort of the constructor. *)
Fixpoint insert_sample (p : R * R) (l : list (R * R)) : list (R * R) :=
  match l with
  | [] => [p]
  | q :: l' =>
      if Rle_dec (fst p) (fst q) then p :: q :: l'
      else q :: insert_sample p l'
  end.

Fixpoint sort_samples (l : list (R * R)) : list (R * R) :=
  match l with
  | [] => []
  | p :: l' => insert_sample p (sort_samples l')
  end.

Definition interp1d (x y : list R) (fill : float) : interp :=
  let samples := sort_samples (combine x y) in
  {| ix := map fst samples; iy := map snd samples; fill_value := fill |}.

(** np.searchsorted on a sorted array: the number of leading elements
    below the argument. *)
Fixpoint searchsorted (xs : list R) (v : R) : nat :=
  match xs with
  | [] => O
  | a :: xs' => if Rlt_dec a v then S (searchsorted xs' v) else O
  end.

Definition out_of_bounds (xs : list R) (v : R) : bool :=
  match xs with
  | [] => false
  | x0 :: _ =>
      (if Rlt_dec v x0 then true else false)
      || (if Rlt_dec (last xs x0) v then true else false)
  end.

Definition interp_call (f : interp) (x_new : float) : float :=
  match x_new with
  | Fin v =>
      if out_of_bounds (ix f) v then fill_value f
      else
        let hi := Nat.min (Nat.max (searchsorted (ix f) v) 1)
                          (List.length (ix f) - 1) in
        let lo := (hi - 1)%nat in
        let x_lo := Fin (nth lo (ix f) 0) in
        let x_hi := Fin (nth hi (ix f) 0) in
        let y_lo := Fin (nth lo (iy f) 0) in
        let y_hi := Fin (nth hi (iy f) 0) in
        let slope := np_div (y_hi - y_lo)%fl (x_hi - x_lo)%fl in
        (slope * (x_new - x_lo) + y_lo)%fl
  | PInf | NInf => fill_value f
  | NaN => NaN
  end.

(** [spin_isotopes]: A, mass, J (nuclear spin), abundance *)
Definition spin_isotopes : list (Z * R * R * R) :=
  [ (129%Z, 128.9047794, 1 / 2, 0.26401);
    (131%Z, 130.9050824, 3 / 2, 0.21232) ].

Section StructureFunctions.

(** The content of [sd/structure_f_erec_xe.pkl]: the energy grid under
    the key '_energies' and one array of values per key
    [(A, coupling, assumption)]. *)
Variable s_data : list (dict_key * list R).

(** [s_data['_energies']]; the module does not load without that entry. *)
Definition s_energies : list R :=
  match key_lookup s_data (KStr "_energies") with
  | Some g => g
  | None => []
  end.

(** The loop over [s_data.items()] that fills [structure_functions]. *)
Definition structure_functions : list (dict_key * interp) :=
  fold_left
    (fun acc kv =>
       let '(_k, _v) := kv in
       if key_eqb _k (KStr "_energies") then acc
       else key_set acc _k (interp1d s_energies _v (Fin 0)))
    s_data [].

(** The value arrays of the table are aligned with the energy grid. *)
Definition aligned : Prop :=
  forall k v, In (k, v) s_data -> k <> KStr "_energies" ->
              List.length v = List.length s_energies.

End StructureFunctions.

(** ** Strings *)

(** [s.split(sep)] for a one-character separator. *)
Fixpoint split (sep : ascii) (s : string) : list string :=
  match s with
  | EmptyString => [EmptyString]
  | String c rest =>
      if Ascii.eqb c sep then EmptyString :: split sep rest
      else match split sep rest with
           | h :: t => String c h :: t
           | [] => [String c EmptyString]
           end
  end.

(** [_, a, b = l] *)
Definition unpack3 {A : Type} (l : list A) : result (A * A * A) :=
  match l with
  | [x; y; z] => Ok (x, y, z)
  | _ :: _ :: _ :: _ :: _ => Raise (ValueError (TooManyValues 3))
  | short => Raise (ValueError (NotEnoughValues 3 (List.length short)))
  end.

(** ** Differential cross section *)

Definition is_none {A : Type} (o : option A) : bool :=
  match o with None => true | Some _ => false end.

(** If only one of the two parameters is given, the call is refused. *)
Definition _warn_momentum_dependence (erec_kwargs : list (string * option float))
  : result unit :=
  n <- dict_get erec_kwargs "n" ;;
  q_ref <- dict_get erec_kwargs "q_ref" ;;
  if xorb (is_none n) (is_none q_ref)
  then Raise (ValueError (MomentumParams n q_ref))
  else Ok tt.

Section CrossSection.

Variable nu : Units.
Variable s_data : list (dict_key * list R).

Definition mediator_factor (erec m_med : float) (material : string) : result float :=
  if (m_med =? PInf)%fl then Ok (Fin 1) else
  m <- mn nu material ;;
  q <- py_pow (Fin 2 * m * erec)%fl (Fin 0.5) ;;
  qc <- py_div q (Fin (c0 nu)) ;;
  py_div (fpow m_med 4) (fpow (fpow m_med 2 + fpow qc 2)%fl 2).

(** Extra momentum dependence for Momentum Dependent DM (MDDM).
    An omitted [n] is 0 and an omitted [q_ref] is [Q_REF]. *)
Definition extra_momentum_factor (erec m_med : float) (material : string)
    (n q_ref : option float) : result float :=
  n <- match n with Some n' => Ok n' | None => Ok (Fin 0) end ;;
  q_ref <- match q_ref with Some q' => Ok q' | None => Q_REF nu end ;;
  m <- mn nu material ;;
  q <- py_pow (Fin 2 * m * erec)%fl (Fin 0.5) ;;
  q <- py_div q (Fin (c0 nu)) ;;
  q_ref <- py_div (q_ref * Fin (MeV nu))%fl (Fin (c0 nu)) ;;
  q_ref <- py_div q_ref (Fin (GeV nu)) ;;
  if (m_med =? PInf)%fl then
    ratio <- py_div q q_ref ;;
    py_pow ratio (Fin 2 * n)%fl
  else
    ratio <- py_div q q_ref ;;
    p <- py_pow ratio (Fin 2 * n)%fl ;;
    f <- py_div (fpow q_ref 2 + fpow m_med 2)%fl (fpow q 2 + fpow m_med 2)%fl ;;
    Ok (p * f)%fl.

(** One turn of the loop over [spin_isotopes] in the SD branch. *)
Definition sd_isotope (erec v mw sigma_nucleon : float)
    (coupling s_assumption : string) (res : float) (iso : Z * R * R * R)
  : result float :=
  let '(A, mn_isotope, J, abundance) := iso in
  let mn_isotope := (Fin mn_isotope * Fin (amu nu))%fl in
  s <- key_get (structure_functions s_data) (KSF A coupling s_assumption) ;;
  mu <- reduced_mass mw mn_isotope ;;
  mu_p <- reduced_mass mw (Fin (mp nu)) ;;
  x <- py_div (sigma_nucleon * Fin 4 * Fin PI * fpow mu 2)%fl
              (Fin 3 * fpow mu_p 2 * (Fin 2 * Fin J + Fin 1))%fl ;;
  em <- e_max nu mw v (Some mn_isotope) ;;
  d <- py_div (Fin abundance * x)%fl em ;;
  en <- py_div erec (Fin (keV nu)) ;;
  Ok (res + d * interp_call s en)%fl.

(** Differential elastic WIMP-nucleus cross section
    (dependent on recoil energy and wimp-earth speed v) *)
Definition sigma_erec (erec v mw sigma_nucleon : float) (interaction : string)
    (m_med : float) (material : string) (n q_ref : option float)
  : result float :=
  res <-
    (if String.eqb interaction "SI" then
       mu <- mu_nucleus nu mw material ;;
       mu_n <- reduced_mass (Fin (amu nu)) mw ;;
       ratio <- py_div mu mu_n ;;
       A <- dict_get ATOMIC_WEIGHT material ;;
       let sigma_nucleus := (sigma_nucleon * fpow ratio 2 * fpow (Fin A) 2)%fl in
       m <- mn nu material ;;
       em <- e_max nu mw v (Some m) ;;
       d <- py_div sigma_nucleus em ;;
       anucl <- dict_get ATOMIC_WEIGHT material ;;
       h <- helm_form_factor_squared nu erec (Fin anucl) ;;
       Ok (d * h)%fl
     else if String.prefix "SD" interaction then
       if negb (String.eqb material "Xe") then
         Raise (NotImplementedError
                  ("SD for " ++ material ++ "-detectors not available"))
       else
         '(_, coupling, s_assumption) <- unpack3 (split "_" interaction) ;;
         fold_left
           (fun acc iso =>
              res <- acc ;;
              sd_isotope erec v mw sigma_nucleon coupling s_assumption res iso)
           spin_isotopes (Ok (Fin 0))
     else
       Raise (ValueError (UnsupportedInteraction interaction))) ;;
  mf <- mediator_factor erec m_med material ;;
  let res := (res * mf)%fl in
  match n, q_ref with
  | Some _, Some _ =>
      ef <- extra_momentum_factor erec m_med material n q_ref ;;
      Ok (res * ef)%fl
  | _, _ => Ok res
  end.

End CrossSection.

(** ** Differential rate *)

(** What a call leaves behind besides its value: the invocations of the
    numeric integrator, in order. *)
Inductive event : Type :=
| QuadCall (a b : float) (quad_kwargs : list (string * option float)).

Definition eff (A : Type) : Type := list event -> result A * list event.

Definition eret {A : Type} (a : A) : eff A := fun tr => (Ok a, tr).

Definition ebind {A B : Type} (m : eff A) (k : A -> eff B) : eff B :=
  fun tr =>
    match m tr with
    | (Ok a, tr') => k a tr'
    | (Raise e, tr') => (Raise e, tr')
    end.

Definition lift {A : Type} (r : result A) : eff A := fun tr => (r, tr).

Declare Scope eff_scope.
Delimit Scope eff_scope with eff.
Notation "x <- m ;; k" := (ebind m (fun x => k))
  (at level 61, m at next level, right associativity) : eff_scope.

(** The halo model collaborator. *)
Record HaloModel : Type := {
  v_esc : float;
  rho_dm : float;
  velocity_dist : float -> option float -> float
}.

(** Values of the shape the public operations take and return. *)
Inductive shaped : Type :=
| Scalar (x : float)
| Array (xs : list float).

Fixpoint emapM {A B : Type} (f : A -> eff B) (l : list A) : eff (list B) :=
  match l with
  | [] => eret []
  | a :: l' =>
      (b <- f a ;;
       bs <- emapM f l' ;;
       eret (b :: bs))%eff
  end.

(** Modelled from the spec: [wr.vectorize_first], the decorator of
    [rate_elastic] and [helm_form_factor_squared], is not in this module.
    The spec has it evaluate the entire procedure independently per element
    of an array first argument and return an array of equal shape, in the
    same order; a scalar first argument goes to the function as it is. *)
Definition vectorize_first (f : float -> eff float) (xs : shaped) : eff shaped :=
  match xs with
  | Scalar x => (y <- f x ;; eret (Scalar y))%eff
  | Array l => (ys <- emapM f l ;; eret (Array ys))%eff
  end.

Definition kwargs_get (kwargs : list (string * option float)) (k : string)
  : option float :=
  match dict_lookup kwargs k with
  | Some v => v
  | None => None
  end.

Definition dict_mem {V : Type} (d : list (string * V)) (k : string) : bool :=
  match dict_lookup d k with Some _ => true | None => false end.

Section Rate.

Variable nu : Units.
Variable s_data : list (dict_key * list R).

(** [wr.StandardHaloModel()] and [wr.v_max(t, v_esc)] *)
Variable StandardHaloModel : HaloModel.
Variable v_max : option float -> float -> float.

(** [scipy.integrate.quad(f, a, b, **kwargs)[0]]; an exception of the
    integrand comes out of the integrator. *)
Variable quad : (float -> result float) -> float -> float ->
                list (string * option float) -> result float.

Definition call_quad (f : float -> result float) (a b : float)
    (kw : list (string * option float)) : eff float :=
  fun tr => (quad f a b kw, tr ++ [QuadCall a b kw]).

(** Differential rate per unit detector mass and recoil energy of
    elastic WIMP scattering (the body that [vectorize_first] wraps). *)
Definition rate_elastic_scalar (erec mw sigma_nucleon : float)
    (interaction : string) (m_med : float) (t : option float)
    (material : string) (halo_model : option HaloModel)
    (kwargs : list (string * option float)) : eff float :=
  let halo_model := match halo_model with
                    | None => StandardHaloModel
                    | Some h => h
                    end in
  (v_min <- lift (vmin_elastic nu erec mw material) ;;
   if (v_min >=? v_max t (v_esc halo_model))%fl then eret (Fin 0) else
   let erec_kwargs := [ ("n"%string, kwargs_get kwargs "n");
                        ("q_ref"%string, kwargs_get kwargs "q_ref") ] in
   _ <- lift (_warn_momentum_dependence erec_kwargs) ;;
   let quad_kwargs :=
     filter (fun kv => negb (dict_mem erec_kwargs (fst kv))) kwargs in
   let integrand (v : float) : result float :=
     (s <- sigma_erec nu s_data erec v mw sigma_nucleon interaction m_med
             material (kwargs_get erec_kwargs "n")
             (kwargs_get erec_kwargs "q_ref") ;;
      Ok (s * v * velocity_dist halo_model v t)%fl)%res in
   r <- lift (py_div (rho_dm halo_model) mw) ;;
   m <- lift (mn nu material) ;;
   u <- lift (py_div (Fin 1) m) ;;
   i <- call_quad integrand v_min (v_max t (v_esc halo_model)) quad_kwargs ;;
   eret (r * u * i)%fl)%eff.

Definition rate_elastic (erec : shaped) (mw sigma_nucleon : float)
    (interaction : string) (m_med : float) (t : option float)
    (material : string) (halo_model : option HaloModel)
    (kwargs : list (string * option float)) : eff shaped :=
  vectorize_first
    (fun e => rate_elastic_scalar e mw sigma_nucleon interaction m_med t
                material halo_model kwargs)
    erec.

End Rate.

(** ** A concrete unit system

    numericalunits with the keV as unit of energy and c = 1: masses are
    in keV/c^2. *)
Definition keV_units : Units :=
  {| keV := 1; MeV := 1000; GeV := 1000000;
     c0 := 1;
     amu := 931494.0954;
     mp := 938272.0813 |}.

(** ** Concrete collaborators

    Stand-ins for the halo model, the maximum accessible speed, the
    integrator and the structure-function table, to run the functions on
    concrete inputs.  Speeds are fractions of c and energies are in keV,
    as in [keV_units]. *)
Definition example_halo : HaloModel :=
  {| v_esc := Fin 0.0018;
     rho_dm := Fin 0.3;
     velocity_dist := fun v _ => v |}.

Definition example_v_max (t : option float) (v_esc : float) : float :=
  (v_esc + Fin 0.0008)%fl.

(** A one-panel rectangle rule. *)
Definition rectangle_quad (f : float -> result float) (a b : float)
    (kw : list (string * option float)) : result float :=
  y <- f a ;;
  Ok (y * (b - a))%fl.

Definition example_s_data : list (dict_key * list R) :=
  [ (KStr "_energies", [0; 50; 100]);
    (KSF 129 "n" "central", [0.03; 0.01; 0.002]);
    (KSF 131 "n" "central", [0.02; 0.008; 0.001]) ].

(** * Properties *)

(** ** Arithmetic on finite values *)

Lemma py_div_fin (a b : R) :
  b <> 0 -> py_div (Fin a) (Fin b) = Ok (Fin (a / b)).
Proof.
  intros Hb. unfold py_div, np_div.
  destruct (Req_dec_T b 0) as [E | _]; [contradiction | reflexivity].
Qed.

Lemma py_div_zero (x : float) : py_div x (Fin 0) = Raise ZeroDivisionError.
Proof.
  unfold py_div. destruct (Req_dec_T 0 0) as [_ | N]; [reflexivity | now elim N].
Qed.

Lemma np_div_fin (a b : R) :
  b <> 0 -> np_div (Fin a) (Fin b) = Fin (a / b).
Proof.
  intros Hb. unfold np_div.
  destruct (Req_dec_T b 0) as [E | _]; [contradiction | reflexivity].
Qed.

Lemma np_sqrt_fin (r : R) : 0 <= r -> np_sqrt (Fin r) = Fin (sqrt r).
Proof.
  intros Hr. unfold np_sqrt.
  destruct (Rlt_dec r 0) as [L | _]; [lra | reflexivity].
Qed.

Lemma py_pow_pos (b e : R) :
  0 < b -> py_pow (Fin b) (Fin e) = Ok (Fin (Rpower b e)).
Proof.
  intros Hb. unfold py_pow, feqb.
  destruct (Req_dec_T e 0) as [-> | _].
  - now rewrite Rpower_O.
  - destruct (Req_dec_T b 0) as [E | _]; [lra |].
    destruct (Rlt_dec b 0) as [L | _]; [lra | reflexivity].
Qed.

Lemma fmul_1_r (x : float) : (x * Fin 1)%fl = x.
Proof.
  destruct x as [r | | |]; cbn; trivial.
  - now rewrite Rmult_1_r.
  - unfold inf_of_sign. destruct (Req_dec_T 1 0); [lra |].
    destruct (Rlt_dec 0 1); [reflexivity | lra].
  - unfold inf_of_sign. destruct (Req_dec_T 1 0); [lra |].
    destruct (Rlt_dec 0 1); [reflexivity | lra].
Qed.

Lemma fmul_fin (a b : R) : (Fin a * Fin b)%fl = Fin (a * b).
Proof. reflexivity. Qed.

Lemma fadd_fin (a b : R) : (Fin a + Fin b)%fl = Fin (a + b).
Proof. reflexivity. Qed.

Lemma fsub_fin (a b : R) : (Fin a - Fin b)%fl = Fin (a - b).
Proof. reflexivity. Qed.

Lemma fneg_fin (a : R) : fneg (Fin a) = Fin (- a).
Proof. reflexivity. Qed.

Lemma fpow_fin (a : R) (k : nat) : fpow (Fin a) k = Fin (a ^ k).
Proof.
  induction k as [| k IH]; [reflexivity |].
  cbn [fpow]. now rewrite IH.
Qed.

Create Rewrite HintDb float.
#[local] Hint Rewrite fmul_fin fadd_fin fsub_fin fneg_fin fpow_fin : float.

Lemma feqb_fin_inf (r : R) : (Fin r =? PInf)%fl = false.
Proof. reflexivity. Qed.

Lemma fge_fin (a b : R) : (Fin a >=? Fin b)%fl = true <-> b <= a.
Proof.
  unfold fge, fle. destruct (Rle_dec b a); split; intros; try easy.
Qed.

(** ** The tables *)

Lemma ATOMIC_WEIGHT_pos (material : string) (w : R) :
  dict_lookup ATOMIC_WEIGHT material = Some w -> 0 < w.
Proof.
  unfold ATOMIC_WEIGHT. cbn [dict_lookup].
  repeat match goal with
         | |- context [String.eqb ?a material] => destruct (String.eqb a material)
         end;
    intros H; inversion H; subst; lra.
Qed.

Lemma ATOMIC_WEIGHT_keys (material : string) :
  dict_lookup ATOMIC_WEIGHT material <> None <->
  In material ["Xe"; "Ar"; "Ge"; "Si"]%string.
Proof.
  unfold ATOMIC_WEIGHT. cbn [dict_lookup In].
  destruct (String.eqb_spec "Xe" material) as [E1 | N1]; [split; [tauto | discriminate] |].
  destruct (String.eqb_spec "Ar" material) as [E2 | N2]; [split; [tauto | discriminate] |].
  destruct (String.eqb_spec "Ge" material) as [E3 | N3]; [split; [tauto | discriminate] |].
  destruct (String.eqb_spec "Si" material) as [E4 | N4]; [split; [tauto | discriminate] |].
  split; [congruence | tauto].
Qed.

Section KinematicsFacts.

Variable nu : Units.
Hypothesis nu_pos : units_positive nu.

Lemma amu_pos : 0 < amu nu.
Proof. unfold units_positive in nu_pos. tauto. Qed.

Lemma mn_table (material : string) (w : R) :
  dict_lookup ATOMIC_WEIGHT material = Some w ->
  mn nu material = Ok (Fin (w * amu nu)).
Proof.
  intros H. unfold mn, dict_get. rewrite H. reflexivity.
Qed.

Lemma mn_missing (material : string) :
  dict_lookup ATOMIC_WEIGHT material = None ->
  mn nu material = Raise (KeyError (KStr material)).
Proof.
  intros H. unfold mn, dict_get. rewrite H. reflexivity.
Qed.

Lemma reduced_mass_fin (m1 m2 : R) :
  0 < m1 -> 0 < m2 ->
  reduced_mass (Fin m1) (Fin m2) = Ok (Fin (m1 * m2 / (m1 + m2))).
Proof.
  intros H1 H2. unfold reduced_mass. cbn [fmul fadd].
  apply py_div_fin. lra.
Qed.

Lemma reduced_mass_pos (m1 m2 : R) :
  0 < m1 -> 0 < m2 -> 0 < m1 * m2 / (m1 + m2).
Proof.
  intros H1 H2. apply Rdiv_lt_0_compat; nra.
Qed.

Lemma mu_nucleus_table (mw : R) (material : string) (w : R) :
  dict_lookup ATOMIC_WEIGHT material = Some w -> 0 < mw ->
  mu_nucleus nu (Fin mw) material
  = Ok (Fin (mw * (w * amu nu) / (mw + w * amu nu))).
Proof.
  intros Hw Hmw. unfold mu_nucleus. rewrite (mn_table _ _ Hw). cbn [bind].
  apply reduced_mass_fin; [assumption |].
  pose proof (ATOMIC_WEIGHT_pos _ _ Hw). pose proof amu_pos. nra.
Qed.

Lemma e_max_fin (mw v m : R) :
  0 < mw -> 0 < m ->
  e_max nu (Fin mw) (Fin v) (Some (Fin m))
  = Ok (Fin (2 * (mw * m / (mw + m)) ^ 2 * v ^ 2 / m)).
Proof.
  intros Hmw Hm. unfold e_max. cbn [bind].
  rewrite reduced_mass_fin by assumption. cbn [bind fpow fmul].
  rewrite py_div_fin by lra. reflexivity.
Qed.

Lemma vmin_elastic_table (erec mw : R) (material : string) (w : R) :
  dict_lookup ATOMIC_WEIGHT material = Some w -> 0 < mw ->
  vmin_elastic nu (Fin erec) (Fin mw) material
  = Ok (np_sqrt (Fin (w * amu nu * erec
                      / (2 * (mw * (w * amu nu) / (mw + w * amu nu)) ^ 2)))).
Proof.
  intros Hw Hmw. unfold vmin_elastic.
  rewrite (mn_table _ _ Hw), (mu_nucleus_table _ _ _ Hw Hmw).
  cbn [bind fpow fmul].
  pose proof (ATOMIC_WEIGHT_pos _ _ Hw) as Hp. pose proof amu_pos as Ha.
  assert (Hm : 0 < w * amu nu) by nra.
  pose proof (reduced_mass_pos _ _ Hmw Hm) as Hmu.
  rewrite py_div_fin by nra. reflexivity.
Qed.

(** C5. For a positive WIMP mass, a material of the table and a speed
    [v >= 0], the minimum velocity for the recoil energy [e_max(mw, v,
    mn(material))] is [v] again, and the minimum velocity for recoil
    energy 0 is 0. *)
Theorem vmin_elastic_inverts_e_max (mw v : R) (material : string) (w : R) :
  dict_lookup ATOMIC_WEIGHT material = Some w ->
  0 < mw -> 0 <= v ->
  (m <- mn nu material ;;
   e <- e_max nu (Fin mw) (Fin v) (Some m) ;;
   vmin_elastic nu e (Fin mw) material) = Ok (Fin v)
  /\ vmin_elastic nu (Fin 0) (Fin mw) material = Ok (Fin 0).
Proof.
  intros Hw Hmw Hv.
  pose proof (ATOMIC_WEIGHT_pos _ _ Hw) as Hp. pose proof amu_pos as Ha.
  assert (Hm : 0 < w * amu nu) by nra.
  pose proof (reduced_mass_pos _ _ Hmw Hm) as Hmu.
  split.
  - rewrite (mn_table _ _ Hw). cbn [bind].
    rewrite e_max_fin by assumption. cbn [bind].
    rewrite (vmin_elastic_table _ _ _ _ Hw Hmw).
    set (mu := mw * (w * amu nu) / (mw + w * amu nu)) in *.
    replace (w * amu nu * (2 * mu ^ 2 * v ^ 2 / (w * amu nu)) / (2 * mu ^ 2))
      with (v ^ 2) by (field; split; lra).
    rewrite np_sqrt_fin by nra.
    now rewrite sqrt_pow2.
  - rewrite (vmin_elastic_table _ _ _ _ Hw Hmw).
    rewrite Rmult_0_r. unfold Rdiv at 1. rewrite Rmult_0_l.
    rewrite np_sqrt_fin by lra. now rewrite sqrt_0.
Qed.

End KinematicsFacts.

(** ** Form factor *)

Section FormFactorFacts.

Variable nu : Units.
Hypothesis nu_pos : units_positive nu.

Lemma PI_gt_3 : 3 < PI.
Proof. pose proof PI2_3_2. lra. Qed.

(** The square of the nuclear radius is positive whatever [c] is. *)
Lemma rn_sq_pos (c : R) :
  0 < c ^ 2 + 7.0 / 3.0 * PI ^ 2 * 0.52 ^ 2 - 5 * 0.9 ^ 2.
Proof.
  pose proof PI_gt_3 as Hpi.
  assert (9 < PI ^ 2) by nra.
  assert (0 <= c ^ 2) by nra.
  nra.
Qed.

Lemma fle_fin_0 (a : R) : (Fin a <=? Fin 0)%fl = true <-> a <= 0.
Proof.
  unfold fle. destruct (Rle_dec a 0); split; intros; try easy.
Qed.

Lemma helm_invalid_A (erec anucl : R) :
  anucl <= 0 ->
  helm_form_factor_squared nu (Fin erec) (Fin anucl) = Raise (ValueError InvalidA).
Proof.
  intros HA. unfold helm_form_factor_squared.
  destruct nu_pos as (Hk & _).
  rewrite py_div_fin by lra. cbn [bind].
  apply fle_fin_0 in HA. now rewrite HA.
Qed.

(** With a positive mass number the function returns a value; the
    argument of the Bessel function is [qrn] below. *)
Lemma helm_returns (erec anucl : R) :
  0 < anucl ->
  exists rn mass_kev : R,
    0 < rn /\ 0 < mass_kev /\
    helm_form_factor_squared nu (Fin erec) (Fin anucl)
    = Ok (let q := np_sqrt (Fin (erec / keV nu * 2 * mass_kev)) in
          let qrn := np_div (q * Fin rn)%fl (Fin 197327) in
          let qs := np_div (q * Fin 0.9)%fl (Fin 197327) in
          np_div (Fin 9 * spherical_bessel_j1 qrn * spherical_bessel_j1 qrn)%fl
                 (qrn * qrn)%fl
          * np_exp (fneg qs * qs))%fl.
Proof.
  intros HA. unfold helm_form_factor_squared.
  destruct nu_pos as (Hk & HM & HG & Hc & Ha & Hp).
  rewrite py_div_fin by lra. cbn [bind].
  assert (HA' : (Fin anucl <=? Fin 0)%fl = false).
  { destruct (Fin anucl <=? Fin 0)%fl eqn:E; [| reflexivity].
    apply fle_fin_0 in E. lra. }
  rewrite HA'. rewrite fpow_fin.
  assert (Hcc : 0 < c0 nu ^ 2) by nra.
  rewrite py_div_fin by lra. cbn [bind].
  assert (Hd : 0 < GeV nu / c0 nu ^ 2) by (apply Rdiv_lt_0_compat; lra).
  rewrite py_div_fin by lra. cbn [bind].
  rewrite py_pow_pos by assumption. cbn [bind]. cbv zeta.
  autorewrite with float.
  pose proof (rn_sq_pos (1.23 * Rpower anucl (1 / 3) - 0.60)) as Hrn.
  rewrite (np_sqrt_fin (_ - _)) by lra.
  eexists (sqrt _), (anucl * (amu nu / (GeV nu / c0 nu ^ 2)) * 1000000).
  split; [apply sqrt_lt_R0; exact Hrn |].
  split.
  - assert (0 < amu nu / (GeV nu / c0 nu ^ 2))
      by (apply Rdiv_lt_0_compat; lra).
    nra.
  - reflexivity.
Qed.

Lemma helm_at_zero (anucl : R) :
  0 < anucl ->
  helm_form_factor_squared nu (Fin 0) (Fin anucl) = Ok NaN.
Proof.
  intros HA.
  destruct (helm_returns 0 anucl HA) as (rn & mass_kev & Hrn & Hm & ->).
  f_equal. cbv zeta.
  replace (0 / keV nu * 2 * mass_kev) with 0 by (unfold Rdiv; ring).
  rewrite np_sqrt_fin by lra. rewrite sqrt_0, fmul_fin, Rmult_0_l.
  rewrite np_div_fin by lra.
  replace (0 / 197327) with 0 by (unfold Rdiv; ring).
  unfold spherical_bessel_j1. cbn [np_sin np_cos].
  rewrite sin_0, fpow_fin.
  replace (0 ^ 2) with 0 by ring.
  unfold np_div at 1 2 3. unfold inf_of_sign.
  destruct (Req_dec_T 0 0) as [_ | N]; [| now elim N].
  reflexivity.
Qed.

(** Away from recoil energy 0 the form factor behaves as documented: for
    a positive mass number and a positive recoil energy it is a finite
    nonnegative number, and for a mass number [A <= 0] the call fails with
    the invalid-argument ValueError. *)
Theorem helm_form_factor_squared_range (erec anucl : R) :
  (0 < anucl -> 0 < erec ->
   exists r : R,
     helm_form_factor_squared nu (Fin erec) (Fin anucl) = Ok (Fin r) /\ 0 <= r)
  /\ (anucl <= 0 ->
      helm_form_factor_squared nu (Fin erec) (Fin anucl)
      = Raise (ValueError InvalidA)).
Proof.
  split; [| apply helm_invalid_A].
  intros HA He.
  destruct (helm_returns erec anucl HA) as (rn & mass_kev & Hrn & Hm & ->).
  destruct nu_pos as (Hk & _).
  cbv zeta.
  assert (Hen : 0 < erec / keV nu) by (apply Rdiv_lt_0_compat; lra).
  assert (Harg : 0 < erec / keV nu * 2 * mass_kev) by nra.
  rewrite np_sqrt_fin by lra.
  pose proof (sqrt_lt_R0 _ Harg) as Hq.
  set (q := sqrt (erec / keV nu * 2 * mass_kev)) in *.
  rewrite !fmul_fin. rewrite !np_div_fin by lra.
  assert (Hx : 0 < q * rn / 197327) by (apply Rdiv_lt_0_compat; nra).
  set (x := q * rn / 197327) in *.
  unfold spherical_bessel_j1. cbn [np_sin np_cos]. rewrite fpow_fin.
  assert (Hx2 : 0 < x ^ 2) by nra.
  rewrite !np_div_fin by lra.
  autorewrite with float.
  assert (Hxx : 0 < x * x) by nra.
  rewrite np_div_fin by lra.
  cbn [np_exp]. rewrite fmul_fin.
  eexists. split; [reflexivity |].
  set (j := sin x / x ^ 2 - cos x / x).
  apply Rmult_le_pos; [| left; apply exp_pos].
  apply Rmult_le_pos; [| left; now apply Rinv_0_lt_compat].
  replace (9 * j * j) with (9 * (j * j)) by ring.
  pose proof (Rle_0_sqr j) as Hj. unfold Rsqr in Hj. lra.
Qed.

End FormFactorFacts.

Lemma keV_units_positive : units_positive keV_units.
Proof. unfold units_positive, keV_units; cbn. repeat split; lra. Qed.

(** C3.  The claim asks for a finite nonnegative form factor at every
    recoil energy [erec >= 0], the Bessel function being extended by its
    limit at 0.  The code has no such extension: at recoil energy 0 (xenon,
    A = 131.293) the argument of [spherical_bessel_j1] is 0, the function
    computes 0/0, and the form factor is NaN, not a finite number. *)
Lemma helm_form_factor_squared_nan_at_zero :
  helm_form_factor_squared keV_units (Fin 0) (Fin 131.293) = Ok NaN
  /\ is_finite NaN = false.
Proof.
  split; [| reflexivity].
  apply helm_at_zero; [apply keV_units_positive | lra].
Qed.

Lemma helm_form_factor_squared_range_witness :
  units_positive keV_units
  /\ (exists r : R,
        helm_form_factor_squared keV_units (Fin 10) (Fin 131.293) = Ok (Fin r)
        /\ 0 <= r)
  /\ helm_form_factor_squared keV_units (Fin 10) (Fin (-1))
     = Raise (ValueError InvalidA).
Proof.
  split; [exact keV_units_positive |].
  split.
  - apply (proj1 (helm_form_factor_squared_range keV_units keV_units_positive
                    10 131.293)); lra.
  - apply (proj2 (helm_form_factor_squared_range keV_units keV_units_positive
                    10 (-1))); lra.
Defined.

(** ** Cross section *)

Section CrossSectionFacts.

Variable nu : Units.
Hypothesis nu_pos : units_positive nu.
Variable s_data : list (dict_key * list R).

Lemma mediator_factor_contact (erec : float) (material : string) :
  mediator_factor nu erec PInf material = Ok (Fin 1).
Proof. reflexivity. Qed.

(** The SI branch with a contact mediator, whenever the extra momentum
    factor is not applied. *)
Lemma sigma_erec_SI_contact (erec v mw sigma_nucleon : R) (material : string)
    (A : R) (n q_ref : option float) :
  dict_lookup ATOMIC_WEIGHT material = Some A ->
  0 < v -> 0 < mw ->
  is_none n || is_none q_ref = true ->
  sigma_erec nu s_data (Fin erec) (Fin v) (Fin mw) (Fin sigma_nucleon)
             "SI" PInf material n q_ref
  = (h <- helm_form_factor_squared nu (Fin erec) (Fin A) ;;
     Ok (Fin (sigma_nucleon
              * (mw * (A * amu nu) / (mw + A * amu nu)
                 / (amu nu * mw / (amu nu + mw))) ^ 2
              * A ^ 2
              / (2 * (mw * (A * amu nu) / (mw + A * amu nu)) ^ 2 * v ^ 2
                 / (A * amu nu)))
         * h)%fl).
Proof.
  intros HA Hv Hmw Hnq.
  pose proof (ATOMIC_WEIGHT_pos _ _ HA) as HAp.
  pose proof (amu_pos nu nu_pos) as Ha.
  assert (Hm : 0 < A * amu nu) by nra.
  pose proof (reduced_mass_pos _ _ Hmw Hm) as HmuN.
  pose proof (reduced_mass_pos _ _ Ha Hmw) as Hmun.
  unfold sigma_erec. cbn [String.eqb Ascii.eqb Bool.eqb].
  rewrite (mu_nucleus_table nu nu_pos _ _ _ HA Hmw). cbn [bind].
  rewrite reduced_mass_fin by assumption. cbn [bind].
  rewrite py_div_fin by lra. cbn [bind].
  unfold dict_get. rewrite HA. cbn [bind].
  rewrite (mn_table nu _ _ HA). cbn [bind].
  rewrite e_max_fin by assumption. cbn [bind].
  autorewrite with float.
  assert (Hem : 0 < 2 * (mw * (A * amu nu) / (mw + A * amu nu)) ^ 2 * v ^ 2
                    / (A * amu nu)).
  { apply Rdiv_lt_0_compat; [| assumption].
    apply Rmult_lt_0_compat; [apply Rmult_lt_0_compat; [lra |] |];
      apply pow_lt; assumption. }
  rewrite py_div_fin by lra.
  cbn [bind].
  destruct (helm_form_factor_squared nu (Fin erec) (Fin A)) as [h | e];
    cbn [bind]; [| reflexivity].
  rewrite mediator_factor_contact. cbn [bind]. rewrite fmul_1_r.
  destruct n, q_ref; try discriminate Hnq; reflexivity.
Qed.

(** C1. For a recoil energy [erec >= 0], a speed [v > 0], a positive WIMP
    mass and a material of the table with atomic weight [A], the SI cross
    section with a contact mediator and no momentum-dependence parameters
    is [sigma_nucleon * (mu_nucleus / mu_nucleon)^2 * A^2 / e_max *
    helm_form_factor_squared(erec, A)], with [mu_nucleon] the reduced mass
    of the atomic mass unit and the WIMP. *)
Theorem sigma_erec_SI_formula (erec v mw sigma_nucleon : R)
    (material : string) (A : R) :
  dict_lookup ATOMIC_WEIGHT material = Some A ->
  0 <= erec -> 0 < v -> 0 < mw ->
  exists (mu_N mu_n emax : R) (h : float),
    mu_nucleus nu (Fin mw) material = Ok (Fin mu_N)
    /\ reduced_mass (Fin (amu nu)) (Fin mw) = Ok (Fin mu_n)
    /\ (m <- mn nu material ;; e_max nu (Fin mw) (Fin v) (Some m))
       = Ok (Fin emax)
    /\ helm_form_factor_squared nu (Fin erec) (Fin A) = Ok h
    /\ sigma_erec nu s_data (Fin erec) (Fin v) (Fin mw) (Fin sigma_nucleon)
                  "SI" PInf material None None
       = Ok (Fin (sigma_nucleon * (mu_N / mu_n) ^ 2 * A ^ 2 / emax) * h)%fl.
Proof.
  intros HA He Hv Hmw.
  pose proof (ATOMIC_WEIGHT_pos _ _ HA) as HAp.
  pose proof (amu_pos nu nu_pos) as Ha.
  assert (Hm : 0 < A * amu nu) by nra.
  destruct (helm_returns nu nu_pos erec A HAp) as (rn & mk & _ & _ & Hh).
  do 3 eexists. eexists.
  split; [apply (mu_nucleus_table nu nu_pos _ _ _ HA Hmw) |].
  split; [apply reduced_mass_fin; assumption |].
  split; [rewrite (mn_table nu _ _ HA); cbn [bind]; apply e_max_fin; assumption |].
  split; [exact Hh |].
  rewrite (sigma_erec_SI_contact _ _ _ _ _ _ None None HA Hv Hmw eq_refl).
  rewrite Hh. reflexivity.
Qed.

(** C7, as the code has it: an interaction string that is not 'SI' and
    does not start with 'SD' is refused with the unsupported-interaction
    ValueError, which carries the string. *)
Theorem sigma_erec_unsupported_interaction (erec v mw sigma_nucleon : float)
    (interaction : string) (m_med : float) (material : string)
    (n q_ref : option float) :
  interaction <> "SI"%string ->
  String.prefix "SD" interaction = false ->
  sigma_erec nu s_data erec v mw sigma_nucleon interaction m_med material
             n q_ref
  = Raise (ValueError (UnsupportedInteraction interaction)).
Proof.
  intros HSI HSD. unfold sigma_erec.
  destruct (String.eqb_spec interaction "SI") as [E | _]; [contradiction |].
  rewrite HSD. reflexivity.
Qed.


Lemma Rpower_half (x : R) : 0 < x -> Rpower x 0.5 = sqrt x.
Proof.
  intros Hx. replace 0.5 with (/ 2) by lra. now apply Rpower_sqrt.
Qed.



(** The cross section does not check the momentum-dependence
    parameters: a lone [n] or [q_ref] is ignored. *)
Lemma sigma_erec_lone_param (erec v mw sigma_nucleon : float)
    (interaction : string) (m_med : float) (material : string)
    (n q_ref : option float) :
  is_none n || is_none q_ref = true ->
  sigma_erec nu s_data erec v mw sigma_nucleon interaction m_med material
             n q_ref
  = sigma_erec nu s_data erec v mw sigma_nucleon interaction m_med material
               None None.
Proof.
  intros H. unfold sigma_erec.
  destruct n, q_ref; try discriminate H; reflexivity.
Qed.

Lemma sigma_erec_SI_missing_material (erec v mw sigma_nucleon m_med : float)
    (material : string) (n q_ref : option float) :
  dict_lookup ATOMIC_WEIGHT material = None ->
  sigma_erec nu s_data erec v mw sigma_nucleon "SI" m_med material n q_ref
  = Raise (KeyError (KStr material)).
Proof.
  intros H. unfold sigma_erec. cbn [String.eqb Ascii.eqb Bool.eqb].
  unfold mu_nucleus. rewrite (mn_missing nu _ H). reflexivity.
Qed.

Lemma sigma_erec_SD_other_material (erec v mw sigma_nucleon m_med : float)
    (interaction material : string) (n q_ref : option float) :
  String.prefix "SD" interaction = true ->
  material <> "Xe"%string ->
  sigma_erec nu s_data erec v mw sigma_nucleon interaction m_med material
             n q_ref
  = Raise (NotImplementedError
             ("SD for " ++ material ++ "-detectors not available")).
Proof.
  intros HSD HXe. unfold sigma_erec.
  destruct (String.eqb_spec interaction "SI") as [-> | _];
    [discriminate HSD |].
  rewrite HSD.
  destruct (String.eqb_spec material "Xe") as [E | _]; [contradiction |].
  reflexivity.
Qed.

End CrossSectionFacts.

(** ** Structure functions *)

Lemma insert_sample_in (p q : R * R) (l : list (R * R)) :
  In q (insert_sample p l) -> q = p \/ In q l.
Proof.
  induction l as [| a l IH]; cbn [insert_sample].
  - intros [<- | []]. now left.
  - destruct (Rle_dec (fst p) (fst a)).
    + intros [<- | H]; [now left | now right].
    + intros [<- | H]; [right; now left |].
      destruct (IH H) as [-> | H']; [now left | right; now right].
Qed.

Lemma insert_sample_length (p : R * R) (l : list (R * R)) :
  List.length (insert_sample p l) = S (List.length l).
Proof.
  induction l as [| a l IH]; cbn [insert_sample]; [reflexivity |].
  destruct (Rle_dec (fst p) (fst a)); cbn [List.length]; congruence.
Qed.

Lemma sort_samples_in (q : R * R) (l : list (R * R)) :
  In q (sort_samples l) -> In q l.
Proof.
  induction l as [| a l IH]; cbn [sort_samples]; [trivial |].
  intros H. destruct (insert_sample_in _ _ _ H) as [-> | H'];
    [now left | right; auto].
Qed.

Lemma sort_samples_length (l : list (R * R)) :
  List.length (sort_samples l) = List.length l.
Proof.
  induction l as [| a l IH]; cbn [sort_samples]; [reflexivity |].
  rewrite insert_sample_length. now rewrite IH.
Qed.

Lemma interp1d_ix_in (xs ys : list R) (fill : float) (x : R) :
  In x (ix (interp1d xs ys fill)) -> In x xs.
Proof.
  cbn [interp1d ix]. intros H.
  apply in_map_iff in H as ((a & b) & <- & H).
  apply sort_samples_in in H. now apply in_combine_l in H.
Qed.

Lemma interp1d_ix_length (xs ys : list R) (fill : float) :
  List.length ys = List.length xs ->
  List.length (ix (interp1d xs ys fill)) = List.length xs.
Proof.
  intros H. cbn [interp1d ix].
  rewrite length_map, sort_samples_length, length_combine, H.
  apply Nat.min_id.
Qed.

Lemma last_in (xs : list R) (d : R) : xs <> [] -> In (last xs d) xs.
Proof.
  induction xs as [| a xs IH]; [congruence |].
  intros _. destruct xs as [| b xs]; [now left |].
  right. apply IH. discriminate.
Qed.

Lemma out_of_bounds_outside (xs : list R) (v : R) :
  xs <> [] ->
  (forall x, In x xs -> v < x) \/ (forall x, In x xs -> x < v) ->
  out_of_bounds xs v = true.
Proof.
  intros Hne H. destruct xs as [| x0 xs]; [congruence |].
  unfold out_of_bounds. destruct H as [H | H].
  - destruct (Rlt_dec v x0) as [_ | N]; [reflexivity |].
    elim N. apply H. now left.
  - destruct (Rlt_dec (last (x0 :: xs) x0) v) as [_ | N];
      [apply orb_true_r |].
    elim N. apply H. now apply last_in.
Qed.

Lemma key_eqb_eq (k1 k2 : dict_key) : key_eqb k1 k2 = true <-> k1 = k2.
Proof.
  destruct k1 as [s1 | A1 c1 a1], k2 as [s2 | A2 c2 a2]; cbn [key_eqb];
    try (split; [discriminate | congruence]).
  - rewrite String.eqb_eq. split; congruence.
  - rewrite !andb_true_iff, Z.eqb_eq, !String.eqb_eq.
    split; [intros ((-> & ->) & ->); reflexivity | intros H; now inversion H].
Qed.

Lemma key_lookup_set {V : Type} (d : list (dict_key * V)) (k k' : dict_key)
    (v f : V) :
  key_lookup (key_set d k v) k' = Some f ->
  f = v \/ key_lookup d k' = Some f.
Proof.
  induction d as [| (k0 & v0) d IH]; cbn [key_set key_lookup].
  - destruct (key_eqb k k'); [intros H; left; congruence | discriminate].
  - destruct (key_eqb k0 k) eqn:E; cbn [key_lookup].
    + destruct (key_eqb k0 k'); [intros H; left; congruence | now right].
    + destruct (key_eqb k0 k'); [now right | exact IH].
Qed.

Section StructureFunctionFacts.

Variable nu : Units.
Hypothesis nu_pos : units_positive nu.
Variable s_data : list (dict_key * list R).

Lemma structure_functions_entries (k : dict_key) (f : interp) :
  key_lookup (structure_functions s_data) k = Some f ->
  exists k' v, In (k', v) s_data /\ k' <> KStr "_energies"
               /\ f = interp1d (s_energies s_data) v (Fin 0).
Proof.
  unfold structure_functions.
  set (step := fun (acc : list (dict_key * interp)) (kv : dict_key * list R) => _).
  assert (G : forall l acc,
             (forall kv, In kv l -> In kv s_data) ->
             (forall k f, key_lookup acc k = Some f ->
                          exists k' v, In (k', v) s_data /\ k' <> KStr "_energies"
                                       /\ f = interp1d (s_energies s_data) v (Fin 0)) ->
             forall k f, key_lookup (fold_left step l acc) k = Some f ->
                         exists k' v, In (k', v) s_data /\ k' <> KStr "_energies"
                                      /\ f = interp1d (s_energies s_data) v (Fin 0)).
  { induction l as [| (k0 & v0) l IH]; intros acc Hl Hacc; cbn [fold_left];
      [exact Hacc |].
    apply IH; [intros kv Hkv; apply Hl; now right |].
    intros k1 f1. unfold step at 1.
    destruct (key_eqb k0 (KStr "_energies")) eqn:E; [apply Hacc |].
    intros H. apply key_lookup_set in H as [-> | H]; [| eauto].
    exists k0, v0. split; [apply Hl; now left |].
    split; [| reflexivity].
    intros ->. cbn in E. discriminate. }
  apply G; [trivial |]. cbn [key_lookup]. discriminate.
Qed.

Lemma interp_call_outside (en : R) (k : dict_key) (f : interp) :
  aligned s_data ->
  s_energies s_data <> [] ->
  (forall g, In g (s_energies s_data) -> en < g)
  \/ (forall g, In g (s_energies s_data) -> g < en) ->
  key_lookup (structure_functions s_data) k = Some f ->
  interp_call f (Fin en) = Fin 0.
Proof.
  intros Hal Hne Hout Hk.
  destruct (structure_functions_entries _ _ Hk) as (k' & v & Hin & Hk' & ->).
  unfold interp_call.
  rewrite out_of_bounds_outside; [reflexivity | |].
  - intros E. apply (f_equal (@List.length R)) in E.
    rewrite interp1d_ix_length in E by (now apply (Hal k')).
    destruct (s_energies s_data); [congruence | discriminate].
  - destruct Hout as [H | H]; [left | right]; intros x Hx;
      apply H; eapply interp1d_ix_in; exact Hx.
Qed.

(** One turn of the SD loop when the structure function evaluates to 0. *)
Lemma sd_isotope_outside (erec v mw sigma_nucleon res : R)
    (coupling s_assumption : string) (A : Z) (m J ab : R) (f : interp) :
  0 < v -> 0 < mw -> 0 < m -> 0 <= J ->
  key_lookup (structure_functions s_data) (KSF A coupling s_assumption)
  = Some f ->
  interp_call f (Fin (erec / keV nu)) = Fin 0 ->
  sd_isotope nu s_data (Fin erec) (Fin v) (Fin mw) (Fin sigma_nucleon)
             coupling s_assumption (Fin res) (A, m, J, ab)
  = Ok (Fin res).
Proof.
  intros Hv Hmw Hm HJ Hf H0.
  destruct nu_pos as (Hk & HM & HG & Hc & Ha & Hp).
  assert (Hmi : 0 < m * amu nu) by nra.
  pose proof (reduced_mass_pos _ _ Hmw Hmi) as Hmu.
  pose proof (reduced_mass_pos _ _ Hmw Hp) as Hmup.
  unfold sd_isotope, key_get. rewrite Hf. cbn [bind].
  rewrite fmul_fin.
  rewrite !reduced_mass_fin by assumption. cbn [bind].
  autorewrite with float.
  assert (0 < (mw * mp nu / (mw + mp nu)) ^ 2) by (apply pow_lt; assumption).
  rewrite py_div_fin by nra. cbn [bind].
  rewrite e_max_fin by assumption. cbn [bind].
  assert (Hem : 0 < 2 * (mw * (m * amu nu) / (mw + m * amu nu)) ^ 2 * v ^ 2
                    / (m * amu nu)).
  { apply Rdiv_lt_0_compat; [| assumption].
    apply Rmult_lt_0_compat; [apply Rmult_lt_0_compat; [lra |] |];
      apply pow_lt; assumption. }
  rewrite fmul_fin. rewrite py_div_fin by lra. cbn [bind].
  rewrite py_div_fin by lra. cbn [bind].
  rewrite H0. autorewrite with float.
  do 2 f_equal. ring.
Qed.

(** C8. For a spin-dependent label whose structure functions are
    tabulated and a recoil energy outside the energy grid (below every
    grid point or above every grid point), every structure-function
    lookup evaluates to 0 instead of failing, and the spin-dependent
    cross section (xenon, contact mediator) is 0 at that energy. *)
Theorem structure_function_outside_grid (erec : R) :
  aligned s_data ->
  s_energies s_data <> [] ->
  (forall g, In g (s_energies s_data) -> erec / keV nu < g)
  \/ (forall g, In g (s_energies s_data) -> g < erec / keV nu) ->
  (forall (k : dict_key) (f : interp),
      key_lookup (structure_functions s_data) k = Some f ->
      interp_call f (Fin (erec / keV nu)) = Fin 0)
  /\ (forall (interaction sd coupling s_assumption : string)
             (v mw sigma_nucleon : R),
        String.prefix "SD" interaction = true ->
        split "_" interaction = [sd; coupling; s_assumption] ->
        key_lookup (structure_functions s_data) (KSF 129 coupling s_assumption)
        <> None ->
        key_lookup (structure_functions s_data) (KSF 131 coupling s_assumption)
        <> None ->
        0 < v -> 0 < mw ->
        sigma_erec nu s_data (Fin erec) (Fin v) (Fin mw) (Fin sigma_nucleon)
                   interaction PInf "Xe" None None
        = Ok (Fin 0)).
Proof.
  intros Hal Hne Hout.
  assert (Hcall : forall k f,
             key_lookup (structure_functions s_data) k = Some f ->
             interp_call f (Fin (erec / keV nu)) = Fin 0)
    by (intros k f; now apply interp_call_outside).
  split; [exact Hcall |].
  intros interaction sd coupling s_assumption v mw sigma_nucleon
         HSD Hsplit H129 H131 Hv Hmw.
  unfold sigma_erec.
  destruct (String.eqb_spec interaction "SI") as [-> | _];
    [discriminate HSD |].
  rewrite HSD. cbn [String.eqb Ascii.eqb Bool.eqb negb].
  rewrite Hsplit. cbn [unpack3 bind].
  destruct (key_lookup (structure_functions s_data)
                       (KSF 129 coupling s_assumption)) as [f129 |] eqn:E129;
    [| congruence].
  destruct (key_lookup (structure_functions s_data)
                       (KSF 131 coupling s_assumption)) as [f131 |] eqn:E131;
    [| congruence].
  unfold spin_isotopes. cbn [fold_left bind].
  rewrite (sd_isotope_outside _ _ _ _ _ _ _ _ _ _ _ f129)
    by (try assumption; try lra; now apply (Hcall _ _ E129)).
  cbn [bind].
  rewrite (sd_isotope_outside _ _ _ _ _ _ _ _ _ _ _ f131)
    by (try assumption; try lra; now apply (Hcall _ _ E131)).
  cbn [bind]. rewrite mediator_factor_contact. cbn [bind].
  rewrite fmul_1_r. reflexivity.
Qed.

End StructureFunctionFacts.

(** ** Rate *)

Lemma emapM_values {A B : Type} (f : A -> eff B) :
  (forall a tr, fst (f a tr) = fst (f a [])) ->
  forall (l : list A) (ys : list B) (tr : list event),
    fst (emapM f l tr) = Ok ys
    <-> Forall2 (fun a y => fst (f a []) = Ok y) l ys.
Proof.
  intros Hf. induction l as [| a l IH]; intros ys tr.
  - cbn. split.
    + intros H. inversion H. constructor.
    + intros H. inversion H. reflexivity.
  - cbn [emapM]. unfold ebind at 1.
    specialize (Hf a tr). destruct (f a tr) as [[b | e] tr1]; cbn [fst] in *.
    + unfold ebind. specialize (IH).
      destruct (emapM f l tr1) as [[bs | e] tr2] eqn:E.
      * pose proof (proj1 (IH bs tr1)) as IH1. rewrite E in IH1.
        specialize (IH1 eq_refl). cbn [eret fst]. split.
        -- intros H. inversion H; subst. constructor; [now symmetry | exact IH1].
        -- intros H. inversion H as [| ? y ? ys' Hy Hys]; subst.
           rewrite <- Hf in Hy. inversion Hy; subst.
           apply (IH ys' tr1) in Hys. rewrite E in Hys. cbn in Hys.
           now inversion Hys.
      * cbn [fst]. split; [discriminate |].
        intros H. inversion H as [| ? y ? ys' Hy Hys]; subst.
        apply (IH ys' tr1) in Hys. rewrite E in Hys. discriminate.
    + split; [discriminate |].
      intros H. inversion H as [| ? y ? ys' Hy Hys]; subst. congruence.
Qed.

Section RateFacts.

Variable nu : Units.
Variable s_data : list (dict_key * list R).
Variable StandardHaloModel : HaloModel.
Variable v_max : option float -> float -> float.
Variable quad : (float -> result float) -> float -> float ->
                list (string * option float) -> result float.

Local Notation "'rate_scalar'" :=
  (rate_elastic_scalar nu s_data StandardHaloModel v_max quad).
Local Notation "'rate'" :=
  (rate_elastic nu s_data StandardHaloModel v_max quad).

(** The halo model a call works with. *)
Local Notation "'resolve' halo" :=
  (match halo with None => StandardHaloModel | Some h => h end)
  (at level 10, halo at level 9).

(** On a scalar the decorated function is its body. *)
Lemma rate_on_scalar (erec mw sigma_nucleon : float)
    (interaction : string) (m_med : float) (t : option float)
    (material : string) (halo_model : option HaloModel)
    (kwargs : list (string * option float)) (tr : list event) :
  rate (Scalar erec) mw sigma_nucleon interaction m_med t material halo_model
       kwargs tr
  = match rate_scalar erec mw sigma_nucleon interaction m_med t material
                      halo_model kwargs tr with
    | (Ok y, tr') => (Ok (Scalar y), tr')
    | (Raise e, tr') => (Raise e, tr')
    end.
Proof. reflexivity. Qed.

Lemma rate_scalar_returns_zero (erec mw sigma_nucleon : float)
    (interaction : string) (m_med : float) (t : option float)
    (material : string) (halo_model : option HaloModel)
    (kwargs : list (string * option float)) (tr : list event)
    (v_min : float) :
  vmin_elastic nu erec mw material = Ok v_min ->
  (v_min >=? v_max t (v_esc (resolve halo_model)))%fl = true ->
  rate_scalar erec mw sigma_nucleon interaction m_med t material halo_model
              kwargs tr
  = (Ok (Fin 0), tr).
Proof.
  intros Hv Hge.
  unfold rate_elastic_scalar, ebind, lift. rewrite Hv, Hge. reflexivity.
Qed.

(** C2. Whatever the other arguments are, when [vmin_elastic] returns a
    minimum velocity that is at least [v_max(t, halo_model.v_esc)], the
    rate is exactly 0 and the integrator has not been invoked: the trace
    of integrator calls is unchanged. *)
Theorem rate_elastic_short_circuit (erec mw sigma_nucleon : float)
    (interaction : string) (m_med : float) (t : option float)
    (material : string) (halo_model : option HaloModel)
    (kwargs : list (string * option float)) (tr : list event)
    (v_min : float) :
  vmin_elastic nu erec mw material = Ok v_min ->
  (v_min >=? v_max t (v_esc (resolve halo_model)))%fl = true ->
  rate_scalar erec mw sigma_nucleon interaction m_med t material halo_model
              kwargs tr
  = (Ok (Fin 0), tr)
  /\ rate (Scalar erec) mw sigma_nucleon interaction m_med t material
          halo_model kwargs tr
     = (Ok (Scalar (Fin 0)), tr).
Proof.
  intros Hv Hge.
  pose proof (rate_scalar_returns_zero erec mw sigma_nucleon interaction m_med
                t material halo_model kwargs tr v_min Hv Hge) as H.
  split; [exact H |].
  unfold rate_elastic, vectorize_first, ebind. now rewrite H.
Qed.

Lemma rate_scalar_missing_material (erec mw sigma_nucleon : float)
    (interaction : string) (m_med : float) (t : option float)
    (material : string) (halo_model : option HaloModel)
    (kwargs : list (string * option float)) (tr : list event) :
  dict_lookup ATOMIC_WEIGHT material = None ->
  rate_scalar erec mw sigma_nucleon interaction m_med t material halo_model
              kwargs tr
  = (Raise (KeyError (KStr material)), tr).
Proof.
  intros H. unfold rate_elastic_scalar, ebind, lift, vmin_elastic.
  rewrite (mn_missing nu _ H). reflexivity.
Qed.

Lemma rate_scalar_lone_param (erec mw sigma_nucleon : float)
    (interaction : string) (m_med : float) (t : option float)
    (material : string) (halo_model : option HaloModel)
    (kwargs : list (string * option float)) (tr : list event)
    (v_min : float) :
  vmin_elastic nu erec mw material = Ok v_min ->
  (v_min >=? v_max t (v_esc (resolve halo_model)))%fl = false ->
  xorb (is_none (kwargs_get kwargs "n")) (is_none (kwargs_get kwargs "q_ref"))
  = true ->
  rate_scalar erec mw sigma_nucleon interaction m_med t material halo_model
              kwargs tr
  = (Raise (ValueError (MomentumParams (kwargs_get kwargs "n")
                                       (kwargs_get kwargs "q_ref"))), tr).
Proof.
  intros Hv Hge Hx.
  unfold rate_elastic_scalar, ebind, lift. rewrite Hv, Hge.
  unfold _warn_momentum_dependence, dict_get.
  cbn [dict_lookup String.eqb Ascii.eqb Bool.eqb bind].
  now rewrite Hx.
Qed.

(** The value of a scalar call does not depend on the calls before it. *)
Lemma rate_scalar_value (erec mw sigma_nucleon : float)
    (interaction : string) (m_med : float) (t : option float)
    (material : string) (halo_model : option HaloModel)
    (kwargs : list (string * option float)) (tr : list event) :
  fst (rate_scalar erec mw sigma_nucleon interaction m_med t material
                   halo_model kwargs tr)
  = fst (rate_scalar erec mw sigma_nucleon interaction m_med t material
                     halo_model kwargs []).
Proof.
  unfold rate_elastic_scalar, ebind, lift, eret, call_quad.
  destruct (vmin_elastic nu erec mw material) as [v_min | e]; [| reflexivity].
  destruct (v_min >=? v_max t (v_esc (resolve halo_model)))%fl; [reflexivity |].
  destruct (_warn_momentum_dependence _) as [[] | e]; [| reflexivity].
  destruct (py_div (rho_dm (resolve halo_model)) mw) as [r | e]; [| reflexivity].
  destruct (mn nu material) as [m | e]; [| reflexivity].
  destruct (py_div (Fin 1) m) as [u | e]; [| reflexivity].
  destruct (quad _ _ _ _) as [i | e]; reflexivity.
Qed.

(** C6, as the code has it.  With exactly one of [n] and [q_ref] among
    the keyword arguments, the rate fails with the ValueError of
    [_warn_momentum_dependence], and the integrator has not been invoked,
    whenever the minimum velocity is below the maximum accessible speed
    (otherwise the rate has returned 0 before the check).  The cross
    section makes no such check: it returns what it returns when neither
    parameter is given. *)
Theorem momentum_params_checked_by_rate (erec mw sigma_nucleon : float)
    (interaction : string) (m_med : float) (t : option float)
    (material : string) (halo_model : option HaloModel)
    (kwargs : list (string * option float)) (tr : list event)
    (v_min v : float) :
  xorb (is_none (kwargs_get kwargs "n")) (is_none (kwargs_get kwargs "q_ref"))
  = true ->
  (vmin_elastic nu erec mw material = Ok v_min ->
   (v_min >=? v_max t (v_esc (resolve halo_model)))%fl = false ->
   rate (Scalar erec) mw sigma_nucleon interaction m_med t material halo_model
        kwargs tr
   = (Raise (ValueError (MomentumParams (kwargs_get kwargs "n")
                                        (kwargs_get kwargs "q_ref"))), tr))
  /\ sigma_erec nu s_data erec v mw sigma_nucleon interaction m_med material
                (kwargs_get kwargs "n") (kwargs_get kwargs "q_ref")
     = sigma_erec nu s_data erec v mw sigma_nucleon interaction m_med material
                  None None.
Proof.
  intros Hx. split.
  - intros Hv Hge. rewrite rate_on_scalar.
    erewrite rate_scalar_lone_param by eassumption. reflexivity.
  - apply sigma_erec_lone_param.
    destruct (kwargs_get kwargs "n"), (kwargs_get kwargs "q_ref");
      try discriminate Hx; reflexivity.
Qed.

(** C9. A call with an array of recoil energies returns the array [ys]
    exactly when the scalar calls on the elements, one by one and in the
    same order, return the elements of [ys]; in particular [ys] has the
    length of the input. *)
Theorem rate_elastic_vectorized (es ys : list float) (mw sigma_nucleon : float)
    (interaction : string) (m_med : float) (t : option float)
    (material : string) (halo_model : option HaloModel)
    (kwargs : list (string * option float)) (tr : list event) :
  fst (rate (Array es) mw sigma_nucleon interaction m_med t material
            halo_model kwargs tr) = Ok (Array ys)
  <-> Forall2
        (fun e y =>
           fst (rate (Scalar e) mw sigma_nucleon interaction m_med t material
                     halo_model kwargs []) = Ok (Scalar y))
        es ys.
Proof.
  unfold rate_elastic, vectorize_first.
  set (f := fun e => rate_scalar e mw sigma_nucleon interaction m_med t
                                 material halo_model kwargs).
  assert (Hf : forall a tr', fst (f a tr') = fst (f a []))
    by (intros a tr'; apply rate_scalar_value).
  assert (Hs : forall e y,
             fst (ebind (f e) (fun y0 => eret (Scalar y0)) []) = Ok (Scalar y)
             <-> fst (f e []) = Ok y).
  { intros e y. unfold ebind, eret.
    destruct (f e []) as [[y0 | ex] tr0]; cbn [fst].
    - split; intros H; inversion H; reflexivity.
    - split; discriminate. }
  pose proof (emapM_values f Hf es ys tr) as Hm.
  unfold ebind at 1. destruct (emapM f es tr) as [[bs | ex] tr1];
    cbn [fst eret] in *.
  - split.
    + intros H. inversion H; subst.
      eapply Forall2_impl; [| apply Hm; reflexivity].
      intros a b Hab. now apply Hs.
    + intros H. f_equal. f_equal.
      assert (H' : Forall2 (fun a y => fst (f a []) = Ok y) es ys)
        by (eapply Forall2_impl; [| exact H]; intros a b Hab; now apply Hs).
      apply Hm in H'. now inversion H'.
  - split; [discriminate |].
    intros H.
    assert (H' : Forall2 (fun a y => fst (f a []) = Ok y) es ys)
      by (eapply Forall2_impl; [| exact H]; intros a b Hab; now apply Hs).
    apply Hm in H'. discriminate.
Qed.

(** C10, as the code has it.  For a material that is not in
    [ATOMIC_WEIGHT], [mn] raises KeyError, and so does every rate call on
    a scalar or on a non-empty array of recoil energies and every SI
    cross-section call; a cross-section call with a label that starts
    with 'SD' is refused before the lookup with NotImplementedError, and
    one with any other label with the unsupported-interaction
    ValueError. *)
Theorem missing_material_errors (material : string) :
  dict_lookup ATOMIC_WEIGHT material = None ->
  mn nu material = Raise (KeyError (KStr material))
  /\ (forall erec mw sigma_nucleon interaction m_med t halo_model kwargs tr,
        rate (Scalar erec) mw sigma_nucleon interaction m_med t material
             halo_model kwargs tr
        = (Raise (KeyError (KStr material)), tr))
  /\ (forall erec erecs mw sigma_nucleon interaction m_med t halo_model
             kwargs tr,
        rate (Array (erec :: erecs)) mw sigma_nucleon interaction m_med t
             material halo_model kwargs tr
        = (Raise (KeyError (KStr material)), tr))
  /\ (forall erec v mw sigma_nucleon m_med n q_ref,
        sigma_erec nu s_data erec v mw sigma_nucleon "SI" m_med material
                   n q_ref
        = Raise (KeyError (KStr material)))
  /\ (forall erec v mw sigma_nucleon interaction m_med n q_ref,
        String.prefix "SD" interaction = true ->
        sigma_erec nu s_data erec v mw sigma_nucleon interaction m_med
                   material n q_ref
        = Raise (NotImplementedError
                   ("SD for " ++ material ++ "-detectors not available")))
  /\ (forall erec v mw sigma_nucleon interaction m_med n q_ref,
        interaction <> "SI"%string ->
        String.prefix "SD" interaction = false ->
        sigma_erec nu s_data erec v mw sigma_nucleon interaction m_med
                   material n q_ref
        = Raise (ValueError (UnsupportedInteraction interaction))).
Proof.
  intros H. split; [now apply mn_missing |].
  split; [intros; rewrite rate_on_scalar;
          now rewrite rate_scalar_missing_material |].
  split.
  { intros. unfold rate_elastic, vectorize_first.
    cbn [emapM]. unfold ebind at 1 2.
    now rewrite rate_scalar_missing_material. }
  split; [intros; now apply sigma_erec_SI_missing_material |].
  split.
  - intros. apply sigma_erec_SD_other_material; [assumption |].
    intros ->. discriminate H.
  - intros erec v mw sigma_nucleon interaction m_med n q_ref HSI HSD.
    unfold sigma_erec.
    destruct (String.eqb_spec interaction "SI") as [E | _]; [contradiction |].
    rewrite HSD. reflexivity.
Qed.

End RateFacts.

(** ** The functions on concrete inputs *)

Example split_label :
  split "_" "SD_n_central" = ["SD"; "n"; "central"]%string.
Proof. reflexivity. Qed.

Example split_no_separator : split "_" "SD" = ["SD"%string].
Proof. reflexivity. Qed.

Example split_empty_fields : split "_" "_a_" = [""; "a"; ""]%string.
Proof. reflexivity. Qed.

Lemma vmin_elastic_inverts_e_max_witness :
  units_positive keV_units
  /\ (m <- mn keV_units "Xe" ;;
      e <- e_max keV_units (Fin 50000000) (Fin 0.001) (Some m) ;;
      vmin_elastic keV_units e (Fin 50000000) "Xe") = Ok (Fin 0.001)
  /\ vmin_elastic keV_units (Fin 0) (Fin 50000000) "Xe" = Ok (Fin 0).
Proof.
  split; [exact keV_units_positive |].
  apply (vmin_elastic_inverts_e_max keV_units keV_units_positive
           50000000 0.001 "Xe" 131.293); [reflexivity | lra | lra].
Defined.

Lemma sigma_erec_SI_formula_witness :
  units_positive keV_units
  /\ exists (mu_N mu_n emax : R) (h : float),
       mu_nucleus keV_units (Fin 50000000) "Xe" = Ok (Fin mu_N)
       /\ reduced_mass (Fin (amu keV_units)) (Fin 50000000) = Ok (Fin mu_n)
       /\ (m <- mn keV_units "Xe" ;;
           e_max keV_units (Fin 50000000) (Fin 0.001) (Some m))
          = Ok (Fin emax)
       /\ helm_form_factor_squared keV_units (Fin 10) (Fin 131.293) = Ok h
       /\ sigma_erec keV_units example_s_data (Fin 10) (Fin 0.001)
                     (Fin 50000000) (Fin 1) "SI" PInf "Xe" None None
          = Ok (Fin (1 * (mu_N / mu_n) ^ 2 * 131.293 ^ 2 / emax) * h)%fl.
Proof.
  split; [exact keV_units_positive |].
  apply (sigma_erec_SI_formula keV_units keV_units_positive example_s_data
           10 0.001 50000000 1 "Xe" 131.293); [reflexivity | lra | lra | lra].
Defined.



Lemma sigma_erec_unsupported_interaction_witness :
  sigma_erec keV_units example_s_data (Fin 10) (Fin 0.001) (Fin 50000000)
             (Fin 1) "XYZ" PInf "Xe" None None
  = Raise (ValueError (UnsupportedInteraction "XYZ")).
Proof.
  apply (sigma_erec_unsupported_interaction keV_units example_s_data);
    [discriminate | reflexivity].
Defined.

(** The label 'SD' is neither 'SI' nor a tabulated spin-dependent label,
    and the call fails while unpacking the split label; 'SD_x_y' fails on
    the lookup of its structure function. *)
Lemma sigma_erec_malformed_SD :
  sigma_erec keV_units example_s_data (Fin 10) (Fin 0.001) (Fin 50000000)
             (Fin 1) "SD" PInf "Xe" None None
  = Raise (ValueError (NotEnoughValues 3 1))
  /\ sigma_erec keV_units example_s_data (Fin 10) (Fin 0.001) (Fin 50000000)
                (Fin 1) "SD_x_y" PInf "Xe" None None
     = Raise (KeyError (KSF 129 "x" "y")).
Proof. split; reflexivity. Qed.

(** A 1 MeV WIMP cannot give xenon a 100 keV recoil at any halo speed. *)
Lemma vmin_above_v_max :
  exists v_min : R,
    vmin_elastic keV_units (Fin 100) (Fin 1000) "Xe" = Ok (Fin v_min)
    /\ (Fin v_min >=? example_v_max None (v_esc example_halo))%fl = true.
Proof.
  eexists. split.
  - rewrite (vmin_elastic_table keV_units keV_units_positive 100 1000 "Xe"
               131.293) by (reflexivity || lra).
    cbn [amu keV_units]. rewrite np_sqrt_fin by lra. reflexivity.
  - unfold example_v_max, example_halo. cbn [v_esc]. rewrite fadd_fin.
    apply fge_fin.
    apply Rle_trans with (sqrt 1); [rewrite sqrt_1; lra |].
    apply sqrt_le_1; lra.
Qed.

(** A 50 GeV WIMP gives xenon a 10 keV recoil at halo speeds. *)
Lemma vmin_below_v_max :
  exists v_min : R,
    vmin_elastic keV_units (Fin 10) (Fin 50000000) "Xe" = Ok (Fin v_min)
    /\ (Fin v_min >=? example_v_max None (v_esc example_halo))%fl = false.
Proof.
  eexists. split.
  - rewrite (vmin_elastic_table keV_units keV_units_positive 10 50000000 "Xe"
               131.293) by (reflexivity || lra).
    cbn [amu keV_units]. rewrite np_sqrt_fin by lra. reflexivity.
  - unfold example_v_max, example_halo. cbn [v_esc]. rewrite fadd_fin.
    match goal with
    | |- ?b = false => destruct b eqn:E; [| reflexivity]
    end.
    apply fge_fin in E. exfalso.
    apply (Rlt_irrefl (0.0018 + 0.0008)).
    eapply Rle_lt_trans; [exact E |].
    rewrite <- (sqrt_pow2 (0.0018 + 0.0008)) by lra.
    apply sqrt_lt_1; lra.
Qed.

Lemma rate_elastic_short_circuit_witness :
  exists v_min : float,
    vmin_elastic keV_units (Fin 100) (Fin 1000) "Xe" = Ok v_min
    /\ (v_min >=? example_v_max None (v_esc example_halo))%fl = true
    /\ rate_elastic_scalar keV_units example_s_data example_halo
         example_v_max rectangle_quad (Fin 100) (Fin 1000) (Fin 1) "SI" PInf
         None "Xe" None [] []
       = (Ok (Fin 0), [])
    /\ rate_elastic keV_units example_s_data example_halo example_v_max
         rectangle_quad (Scalar (Fin 100)) (Fin 1000) (Fin 1) "SI" PInf
         None "Xe" None [] []
       = (Ok (Scalar (Fin 0)), []).
Proof.
  destruct vmin_above_v_max as (v_min & Hv & Hge).
  exists (Fin v_min). split; [exact Hv |]. split; [exact Hge |].
  exact (rate_elastic_short_circuit keV_units example_s_data example_halo
           example_v_max rectangle_quad (Fin 100) (Fin 1000) (Fin 1) "SI" PInf
           None "Xe" None [] [] (Fin v_min) Hv Hge).
Defined.

(** With [n] alone, the cross section returns a value and the rate of a
    kinematically closed recoil returns 0: neither call is refused. *)
Lemma lone_momentum_param_accepted :
  (exists x : float,
     sigma_erec keV_units example_s_data (Fin 10) (Fin 0.001) (Fin 50000000)
                (Fin 1) "SI" PInf "Xe" (Some (Fin 2)) None
     = Ok x)
  /\ rate_elastic keV_units example_s_data example_halo example_v_max
       rectangle_quad (Scalar (Fin 100)) (Fin 1000) (Fin 1) "SI" PInf None
       "Xe" None [("n"%string, Some (Fin 2))] []
     = (Ok (Scalar (Fin 0)), []).
Proof.
  split.
  - rewrite (sigma_erec_SI_contact keV_units keV_units_positive example_s_data
               10 0.001 50000000 1 "Xe" 131.293)
      by (reflexivity || lra).
    destruct (helm_returns keV_units keV_units_positive 10 131.293)
      as (rn & mk & _ & _ & ->); [lra |].
    eexists. reflexivity.
  - destruct vmin_above_v_max as (v_min & Hv & Hge).
    rewrite rate_on_scalar.
    now rewrite (rate_scalar_returns_zero keV_units example_s_data example_halo
             example_v_max rectangle_quad (Fin 100) (Fin 1000) (Fin 1) "SI"
             PInf None "Xe" None [("n"%string, Some (Fin 2))] [] (Fin v_min)
             Hv Hge).
Qed.

Lemma momentum_params_checked_by_rate_witness :
  exists v_min : float,
    vmin_elastic keV_units (Fin 10) (Fin 50000000) "Xe" = Ok v_min
    /\ (v_min >=? example_v_max None (v_esc example_halo))%fl = false
    /\ rate_elastic keV_units example_s_data example_halo
         example_v_max rectangle_quad (Scalar (Fin 10)) (Fin 50000000) (Fin 1)
         "SI" PInf None "Xe" None [("n"%string, Some (Fin 2))] []
       = (Raise (ValueError (MomentumParams (Some (Fin 2)) None)), [])
    /\ sigma_erec keV_units example_s_data (Fin 10) (Fin 0.001) (Fin 50000000)
                  (Fin 1) "SI" PInf "Xe" (Some (Fin 2)) None
       = sigma_erec keV_units example_s_data (Fin 10) (Fin 0.001)
                    (Fin 50000000) (Fin 1) "SI" PInf "Xe" None None.
Proof.
  destruct vmin_below_v_max as (v_min & Hv & Hge).
  exists (Fin v_min). split; [exact Hv |]. split; [exact Hge |].
  destruct (momentum_params_checked_by_rate keV_units example_s_data
              example_halo example_v_max rectangle_quad (Fin 10)
              (Fin 50000000) (Fin 1) "SI" PInf None "Xe" None
              [("n"%string, Some (Fin 2))] [] (Fin v_min) (Fin 0.001) eq_refl)
    as (Hrate & Hsigma).
  split; [exact (Hrate Hv Hge) | exact Hsigma].
Defined.

(** An unknown material with an SD label, or with an unrecognized label,
    does not reach the atomic-weight lookup; neither does a rate call on
    an empty array of recoil energies, which returns an empty array. *)
Lemma missing_material_other_errors :
  dict_lookup ATOMIC_WEIGHT "Pb" = None
  /\ sigma_erec keV_units example_s_data (Fin 10) (Fin 0.001) (Fin 50000000)
                (Fin 1) "SD_n_central" PInf "Pb" None None
     = Raise (NotImplementedError "SD for Pb-detectors not available")
  /\ sigma_erec keV_units example_s_data (Fin 10) (Fin 0.001) (Fin 50000000)
                (Fin 1) "XYZ" PInf "Pb" None None
     = Raise (ValueError (UnsupportedInteraction "XYZ"))
  /\ rate_elastic keV_units example_s_data example_halo example_v_max
       rectangle_quad (Array []) (Fin 50000000) (Fin 1) "SI" PInf None "Pb"
       None [] []
     = (Ok (Array []), []).
Proof. repeat split; reflexivity. Qed.

Lemma missing_material_errors_witness :
  dict_lookup ATOMIC_WEIGHT "Pb" = None
  /\ mn keV_units "Pb" = Raise (KeyError (KStr "Pb"))
  /\ rate_elastic keV_units example_s_data example_halo example_v_max
       rectangle_quad (Scalar (Fin 10)) (Fin 50000000) (Fin 1) "SI" PInf None
       "Pb" None [] []
     = (Raise (KeyError (KStr "Pb")), [])
  /\ rate_elastic keV_units example_s_data example_halo example_v_max
       rectangle_quad (Array [Fin 10; Fin 20]) (Fin 50000000) (Fin 1) "SI"
       PInf None "Pb" None [] []
     = (Raise (KeyError (KStr "Pb")), [])
  /\ sigma_erec keV_units example_s_data (Fin 10) (Fin 0.001) (Fin 50000000)
                (Fin 1) "SI" PInf "Pb" None None
     = Raise (KeyError (KStr "Pb"))
  /\ sigma_erec keV_units example_s_data (Fin 10) (Fin 0.001) (Fin 50000000)
                (Fin 1) "SD_n_central" PInf "Pb" None None
     = Raise (NotImplementedError "SD for Pb-detectors not available")
  /\ sigma_erec keV_units example_s_data (Fin 10) (Fin 0.001) (Fin 50000000)
                (Fin 1) "XYZ" PInf "Pb" None None
     = Raise (ValueError (UnsupportedInteraction "XYZ")).
Proof.
  split; [reflexivity |].
  destruct (missing_material_errors keV_units example_s_data example_halo
              example_v_max rectangle_quad "Pb" eq_refl)
    as (Hmn & Hrate & Harray & HSI & HSD & Hother).
  split; [exact Hmn |].
  split; [apply Hrate |].
  split; [apply Harray |].
  split; [apply HSI |].
  split; [apply HSD; reflexivity |].
  apply Hother; [discriminate | reflexivity].
Defined.

Lemma example_s_data_aligned : aligned example_s_data.
Proof.
  intros k v Hin Hk. cbn in Hin.
  destruct Hin as [H | [H | [H | []]]]; inversion H; subst;
    [now elim Hk | reflexivity | reflexivity].
Qed.

Lemma example_grid : s_energies example_s_data = [0; 50; 100].
Proof. reflexivity. Qed.

Lemma structure_function_outside_grid_witness :
  units_positive keV_units
  /\ aligned example_s_data
  /\ s_energies example_s_data <> []
  /\ (forall g, In g (s_energies example_s_data) -> g < 200 / keV keV_units)
  /\ interp_call (interp1d [0; 50; 100] [0.03; 0.01; 0.002] (Fin 0))
                 (Fin (200 / keV keV_units)) = Fin 0
  /\ sigma_erec keV_units example_s_data (Fin 200) (Fin 0.001) (Fin 50000000)
                (Fin 1) "SD_n_central" PInf "Xe" None None
     = Ok (Fin 0).
Proof.
  assert (Hgrid : forall g, In g (s_energies example_s_data) ->
                            g < 200 / keV keV_units).
  { rewrite example_grid. cbn [keV keV_units In].
    intros g [<- | [<- | [<- | []]]]; lra. }
  assert (Hne : s_energies example_s_data <> [])
    by (rewrite example_grid; discriminate).
  destruct (structure_function_outside_grid keV_units keV_units_positive
              example_s_data 200 example_s_data_aligned Hne (or_intror Hgrid))
    as (Hcall & Hsigma).
  split; [exact keV_units_positive |].
  split; [exact example_s_data_aligned |].
  split; [exact Hne |].
  split; [exact Hgrid |].
  split.
  - apply (Hcall (KSF 129 "n" "central")). reflexivity.
  - apply (Hsigma "SD_n_central"%string "SD"%string "n"%string
                  "central"%string);
      [reflexivity | reflexivity | discriminate | discriminate | lra | lra].
Defined.

(** * Further properties of the module *)

(** ** Kinematics *)

Section KinematicsMore.

Variable nu : Units.
Hypothesis nu_pos : units_positive nu.

Lemma fmul_comm (x y : float) : (x * y)%fl = (y * x)%fl.
Proof.
  destruct x as [a | | |], y as [b | | |]; cbn [fmul]; try reflexivity.
  now rewrite Rmult_comm.
Qed.

Lemma fadd_comm (x y : float) : (x + y)%fl = (y + x)%fl.
Proof.
  destruct x as [a | | |], y as [b | | |]; cbn [fadd]; try reflexivity.
  now rewrite Rplus_comm.
Qed.

(** X1. The reduced mass does not depend on the order of the two masses,
    whatever floats they are: the same value or the same exception. *)
Theorem reduced_mass_symmetric (m1 m2 : float) :
  reduced_mass m1 m2 = reduced_mass m2 m1.
Proof.
  unfold reduced_mass. now rewrite (fmul_comm m1 m2), (fadd_comm m1 m2).
Qed.

(** X2. On finite masses [reduced_mass] raises ZeroDivisionError exactly
    when the masses sum to zero. *)
Theorem reduced_mass_zero_division (m1 m2 : R) :
  reduced_mass (Fin m1) (Fin m2) = Raise ZeroDivisionError <-> m1 + m2 = 0.
Proof.
  unfold reduced_mass. rewrite fmul_fin, fadd_fin. unfold py_div.
  destruct (Req_dec_T (m1 + m2) 0) as [E | N]; split; intros H;
    try assumption; try reflexivity; [discriminate | contradiction].
Qed.

(** X3. In exact real arithmetic the kinematic maximum of the recoil
    energy is the kinetic energy [mw * v^2 / 2] of the WIMP times the
    factor [4 * mw * m / (mw + m)^2]; it is never negative. *)
Theorem e_max_kinetic_fraction (mw v m : R) :
  0 < mw -> 0 < m ->
  exists E : R,
    e_max nu (Fin mw) (Fin v) (Some (Fin m)) = Ok (Fin E)
    /\ 0 <= E
    /\ E = mw * v ^ 2 / 2 * (4 * mw * m / (mw + m) ^ 2).
Proof.
  intros Hmw Hm. eexists. split; [now apply e_max_fin |].
  assert (Hv : 0 <= v ^ 2) by apply pow2_ge_0.
  split.
  - apply Rmult_le_pos; [| left; now apply Rinv_0_lt_compat].
    apply Rmult_le_pos; [| assumption].
    apply Rmult_le_pos; [lra | apply pow2_ge_0].
  - field. split; lra.
Qed.

(** X4. [e_max] undoes [vmin_elastic]: a WIMP at the minimum velocity for
    a recoil energy [erec >= 0] has exactly [erec] as its maximum recoil
    energy. *)
Theorem e_max_inverts_vmin_elastic (erec mw : R) (material : string) (w : R) :
  dict_lookup ATOMIC_WEIGHT material = Some w ->
  0 < mw -> 0 <= erec ->
  (v <- vmin_elastic nu (Fin erec) (Fin mw) material ;;
   m <- mn nu material ;;
   e_max nu (Fin mw) v (Some m)) = Ok (Fin erec).
Proof.
  intros Hw Hmw He.
  pose proof (ATOMIC_WEIGHT_pos _ _ Hw) as Hp.
  pose proof (amu_pos nu nu_pos) as Ha.
  assert (Hm : 0 < w * amu nu) by nra.
  pose proof (reduced_mass_pos _ _ Hmw Hm) as Hmu.
  rewrite (vmin_elastic_table nu nu_pos _ _ _ _ Hw Hmw).
  set (mu := mw * (w * amu nu) / (mw + w * amu nu)) in *.
  assert (Hmu2 : 0 < 2 * mu ^ 2) by (assert (0 < mu ^ 2) by (now apply pow_lt); lra).
  assert (HX : 0 <= w * amu nu * erec / (2 * mu ^ 2)).
  { apply Rmult_le_pos; [nra | left; now apply Rinv_0_lt_compat]. }
  rewrite np_sqrt_fin by assumption. cbn [bind].
  rewrite (mn_table nu _ _ Hw). cbn [bind].
  rewrite e_max_fin by assumption. fold mu.
  rewrite pow2_sqrt by assumption.
  do 2 f_equal. field. split; lra.
Qed.

(** X5. The minimum velocity grows with the recoil energy. *)
Theorem vmin_elastic_monotone (e1 e2 mw : R) (material : string) (w : R) :
  dict_lookup ATOMIC_WEIGHT material = Some w ->
  0 < mw -> 0 <= e1 -> e1 <= e2 ->
  exists v1 v2 : R,
    vmin_elastic nu (Fin e1) (Fin mw) material = Ok (Fin v1)
    /\ vmin_elastic nu (Fin e2) (Fin mw) material = Ok (Fin v2)
    /\ 0 <= v1 /\ v1 <= v2.
Proof.
  intros Hw Hmw H1 H12.
  pose proof (ATOMIC_WEIGHT_pos _ _ Hw) as Hp.
  pose proof (amu_pos nu nu_pos) as Ha.
  assert (Hm : 0 < w * amu nu) by nra.
  pose proof (reduced_mass_pos _ _ Hmw Hm) as Hmu.
  rewrite !(vmin_elastic_table nu nu_pos _ _ _ _ Hw Hmw).
  set (mu := mw * (w * amu nu) / (mw + w * amu nu)) in *.
  assert (Hi : 0 < / (2 * mu ^ 2)).
  { apply Rinv_0_lt_compat. assert (0 < mu ^ 2) by (now apply pow_lt). lra. }
  assert (HX1 : 0 <= w * amu nu * e1 / (2 * mu ^ 2))
    by (apply Rmult_le_pos; [nra | lra]).
  assert (HX12 : w * amu nu * e1 / (2 * mu ^ 2) <= w * amu nu * e2 / (2 * mu ^ 2))
    by (apply Rmult_le_compat_r; [lra | nra]).
  rewrite !np_sqrt_fin by lra.
  do 2 eexists. split; [reflexivity |]. split; [reflexivity |].
  split; [apply sqrt_pos | apply sqrt_le_1; lra].
Qed.

Lemma vmin_argument_negative (erec mw w : R) :
  0 < w -> 0 < mw -> erec < 0 ->
  w * amu nu * erec / (2 * (mw * (w * amu nu) / (mw + w * amu nu)) ^ 2) < 0.
Proof.
  intros Hp Hmw He.
  pose proof (amu_pos nu nu_pos) as Ha.
  assert (Hm : 0 < w * amu nu) by nra.
  pose proof (reduced_mass_pos _ _ Hmw Hm) as Hmu.
  set (mu := mw * (w * amu nu) / (mw + w * amu nu)) in *.
  assert (Hi : 0 < / (2 * mu ^ 2)).
  { apply Rinv_0_lt_compat. assert (0 < mu ^ 2) by (now apply pow_lt). lra. }
  unfold Rdiv. assert (w * amu nu * erec < 0) by nra. nra.
Qed.


(** X7. A WIMP mass of zero makes the reduced mass zero, and
    [vmin_elastic] fails with ZeroDivisionError. *)
Theorem vmin_elastic_zero_mass (erec : R) (material : string) (w : R) :
  dict_lookup ATOMIC_WEIGHT material = Some w ->
  mu_nucleus nu (Fin 0) material = Ok (Fin 0)
  /\ vmin_elastic nu (Fin erec) (Fin 0) material = Raise ZeroDivisionError.
Proof.
  intros Hw.
  pose proof (ATOMIC_WEIGHT_pos _ _ Hw) as Hp.
  pose proof (amu_pos nu nu_pos) as Ha.
  assert (Hm : 0 < w * amu nu) by nra.
  assert (Hmu : mu_nucleus nu (Fin 0) material = Ok (Fin 0)).
  { unfold mu_nucleus. rewrite (mn_table nu _ _ Hw). cbn [bind].
    unfold reduced_mass. rewrite fmul_fin, fadd_fin.
    rewrite py_div_fin by lra. do 2 f_equal. field. lra. }
  split; [exact Hmu |].
  unfold vmin_elastic. rewrite (mn_table nu _ _ Hw), Hmu. cbn [bind].
  autorewrite with float.
  replace (2 * 0 ^ 2) with 0 by ring.
  now rewrite py_div_zero.
Qed.

End KinematicsMore.

(** ** Mediator and momentum-dependence factors *)

Lemma py_pow_half (b : R) :
  0 <= b -> py_pow (Fin b) (Fin 0.5) = Ok (Fin (sqrt b)).
Proof.
  intros [Hb | <-].
  - rewrite py_pow_pos by assumption. now rewrite Rpower_half.
  - unfold py_pow, feqb.
    destruct (Req_dec_T 0.5 0) as [E | _]; [lra |].
    destruct (Req_dec_T 0 0) as [_ | N]; [| now elim N].
    destruct (Rlt_dec 0.5 0) as [L | _]; [lra |].
    now rewrite sqrt_0.
Qed.

Section FactorsMore.

Variable nu : Units.
Hypothesis nu_pos : units_positive nu.

(** The momentum transfer [q / c0] both factors start from. *)
Lemma mediator_factor_finite (erec m_med : R) (material : string) (w : R) :
  dict_lookup ATOMIC_WEIGHT material = Some w ->
  0 <= erec ->
  mediator_factor nu (Fin erec) (Fin m_med) material
  = py_div (Fin (m_med ^ 4))
           (Fin ((m_med ^ 2 + (sqrt (2 * (w * amu nu) * erec) / c0 nu) ^ 2) ^ 2)).
Proof.
  intros Hw He.
  pose proof (ATOMIC_WEIGHT_pos _ _ Hw) as Hp.
  destruct nu_pos as (Hk & HM & HG & Hc & Ha & Hmp).
  assert (Hb : 0 <= 2 * (w * amu nu) * erec)
    by (apply Rmult_le_pos; [nra | assumption]).
  unfold mediator_factor. rewrite feqb_fin_inf.
  rewrite (mn_table nu _ _ Hw). cbn [bind]. rewrite !fmul_fin.
  rewrite py_pow_half by assumption. cbn [bind].
  rewrite py_div_fin by lra. cbn [bind].
  now autorewrite with float.
Qed.

(** X8. In exact real arithmetic, for a finite nonzero mediator mass and
    a recoil energy [erec >= 0] the mediator factor is
    [1 / (1 + (q / m_med)^2)^2] with [q = sqrt(2 * mn * erec) / c0]: it is
    positive and depends on the recoil energy and the mediator mass only
    through [q / m_med]. *)
Theorem mediator_factor_propagator (erec m_med : R) (material : string) (w : R) :
  dict_lookup ATOMIC_WEIGHT material = Some w ->
  0 <= erec -> m_med <> 0 ->
  exists f : R,
    mediator_factor nu (Fin erec) (Fin m_med) material = Ok (Fin f)
    /\ 0 < f
    /\ f = / (1 + (sqrt (2 * (w * amu nu) * erec) / c0 nu / m_med) ^ 2) ^ 2.
Proof.
  intros Hw He Hm.
  rewrite (mediator_factor_finite _ _ _ _ Hw He).
  set (q := sqrt (2 * (w * amu nu) * erec) / c0 nu).
  assert (Hq : 0 <= q ^ 2) by apply pow2_ge_0.
  assert (Hm2 : 0 < m_med ^ 2) by (apply Rlt_0_sqr in Hm; unfold Rsqr in Hm; nra).
  assert (Hd : 0 < (m_med ^ 2 + q ^ 2) ^ 2) by (apply pow_lt; lra).
  assert (Hm4 : m_med ^ 4 = (m_med ^ 2) ^ 2) by ring.
  rewrite py_div_fin by lra.
  eexists. split; [reflexivity |].
  split; [apply Rdiv_lt_0_compat; [rewrite Hm4; nra | assumption] |].
  field. split; [assumption | lra].
Qed.

(** X9. A mediator mass of zero: the factor is 0 at every positive recoil
    energy, and at recoil energy 0 the call fails with
    ZeroDivisionError. *)
Theorem mediator_factor_zero_mass (erec : R) (material : string) (w : R) :
  dict_lookup ATOMIC_WEIGHT material = Some w ->
  (0 < erec -> mediator_factor nu (Fin erec) (Fin 0) material = Ok (Fin 0))
  /\ mediator_factor nu (Fin 0) (Fin 0) material = Raise ZeroDivisionError.
Proof.
  intros Hw.
  pose proof (ATOMIC_WEIGHT_pos _ _ Hw) as Hp.
  pose proof (amu_pos nu nu_pos) as Ha.
  assert (Hc : 0 < c0 nu) by (unfold units_positive in nu_pos; tauto).
  split.
  - intros He.
    rewrite (mediator_factor_finite _ _ _ _ Hw) by lra.
    assert (Hq0 : 0 < sqrt (2 * (w * amu nu) * erec) / c0 nu).
    { apply Rdiv_lt_0_compat; [| assumption]. apply sqrt_lt_R0. apply Rmult_lt_0_compat; [nra | assumption]. }
    set (q := sqrt (2 * (w * amu nu) * erec) / c0 nu) in *.
    assert (Hq2 : 0 < q ^ 2) by (now apply pow_lt).
    assert (Hd : 0 < (0 ^ 2 + q ^ 2) ^ 2) by (apply pow_lt; lra).
    rewrite py_div_fin by lra. do 2 f_equal. field. lra.
  - rewrite (mediator_factor_finite _ _ _ _ Hw) by lra.
    rewrite Rmult_0_r, sqrt_0.
    replace ((0 ^ 2 + (0 / c0 nu) ^ 2) ^ 2) with 0 by (field; lra).
    apply py_div_zero.
Qed.

(** The extra factor once its momenta are computed. *)
Lemma extra_momentum_factor_start (erec n q_ref : R) (m_med : float)
    (material : string) (w : R) :
  dict_lookup ATOMIC_WEIGHT material = Some w ->
  0 <= erec -> 0 < q_ref ->
  extra_momentum_factor nu (Fin erec) m_med material
                        (Some (Fin n)) (Some (Fin q_ref))
  = (let q := Fin (sqrt (2 * (w * amu nu) * erec) / c0 nu) in
     let qr := Fin (q_ref * MeV nu / c0 nu / GeV nu) in
     if (m_med =? PInf)%fl
     then ratio <- py_div q qr ;;
          py_pow ratio (Fin (2 * n))
     else ratio <- py_div q qr ;;
          p <- py_pow ratio (Fin (2 * n)) ;;
          f <- py_div (fpow qr 2 + fpow m_med 2)%fl
                      (fpow q 2 + fpow m_med 2)%fl ;;
          Ok (p * f)%fl).
Proof.
  intros Hw He Hq.
  pose proof (ATOMIC_WEIGHT_pos _ _ Hw) as Hp.
  destruct nu_pos as (Hk & HM & HG & Hc & Ha & Hmp).
  assert (Hb : 0 <= 2 * (w * amu nu) * erec)
    by (apply Rmult_le_pos; [nra | assumption]).
  unfold extra_momentum_factor. cbn [bind].
  rewrite (mn_table nu _ _ Hw). cbn [bind]. rewrite !fmul_fin.
  rewrite py_pow_half by assumption. cbn [bind].
  rewrite py_div_fin by lra. cbn [bind].
  rewrite py_div_fin by lra. cbn [bind].
  rewrite py_div_fin by lra. cbn [bind].
  reflexivity.
Qed.

(** X10. At the reference momentum the extra momentum-dependence factor
    is 1, for every power [n], with an infinite and with a finite
    mediator mass. *)
Theorem extra_momentum_factor_at_reference (erec n q_ref : R)
    (material : string) (w : R) :
  dict_lookup ATOMIC_WEIGHT material = Some w ->
  0 < erec -> 0 < q_ref ->
  sqrt (2 * (w * amu nu) * erec) / c0 nu = q_ref * MeV nu / c0 nu / GeV nu ->
  extra_momentum_factor nu (Fin erec) PInf material
                        (Some (Fin n)) (Some (Fin q_ref)) = Ok (Fin 1)
  /\ forall m_med : R,
      extra_momentum_factor nu (Fin erec) (Fin m_med) material
                            (Some (Fin n)) (Some (Fin q_ref)) = Ok (Fin 1).
Proof.
  intros Hw He Hq Href.
  pose proof (ATOMIC_WEIGHT_pos _ _ Hw) as Hp.
  destruct nu_pos as (Hk & HM & HG & Hc & Ha & Hmp).
  assert (Hqr : 0 < q_ref * MeV nu / c0 nu / GeV nu).
  { repeat apply Rdiv_lt_0_compat; try assumption. nra. }
  assert (Hone : py_pow (Fin 1) (Fin (2 * n)) = Ok (Fin 1)).
  { rewrite py_pow_pos by lra. unfold Rpower. rewrite ln_1, Rmult_0_r.
    now rewrite exp_0. }
  split; [| intros m_med];
    rewrite (extra_momentum_factor_start _ _ _ _ _ _ Hw) by lra;
    cbv zeta; rewrite Href; cbn [feqb];
    rewrite py_div_fin by lra; cbn [bind];
    (replace (q_ref * MeV nu / c0 nu / GeV nu / (q_ref * MeV nu / c0 nu / GeV nu))
       with 1 by (field; repeat split; lra));
    rewrite Hone; [reflexivity |].
  cbn [bind]. autorewrite with float.
  set (qr := q_ref * MeV nu / c0 nu / GeV nu) in *.
  assert (0 < qr ^ 2) by (now apply pow_lt).
  assert (0 <= m_med ^ 2) by apply pow2_ge_0.
  rewrite py_div_fin by lra. cbn [bind]. rewrite fmul_fin.
  do 2 f_equal. field. lra.
Qed.

(** X11. At recoil energy 0 with an infinite mediator mass the extra
    factor is 1 for the power 0 and 0 for a positive power; a negative
    power fails with ZeroDivisionError. *)
Theorem extra_momentum_factor_zero_energy (n q_ref : R) (material : string)
    (w : R) :
  dict_lookup ATOMIC_WEIGHT material = Some w ->
  0 < q_ref ->
  extra_momentum_factor nu (Fin 0) PInf material (Some (Fin n)) (Some (Fin q_ref))
  = (if Req_dec_T n 0 then Ok (Fin 1)
     else if Rlt_dec 0 n then Ok (Fin 0)
     else Raise ZeroDivisionError).
Proof.
  intros Hw Hq.
  destruct nu_pos as (Hk & HM & HG & Hc & Ha & Hmp).
  assert (Hqr : 0 < q_ref * MeV nu / c0 nu / GeV nu).
  { repeat apply Rdiv_lt_0_compat; try assumption. nra. }
  rewrite (extra_momentum_factor_start _ _ _ _ _ _ Hw) by lra.
  cbv zeta. cbn [feqb]. rewrite Rmult_0_r, sqrt_0.
  rewrite py_div_fin by lra. cbn [bind].
  replace (0 / c0 nu / (q_ref * MeV nu / c0 nu / GeV nu)) with 0
    by (field; repeat split; lra).
  unfold py_pow, feqb.
  destruct (Req_dec_T (2 * n) 0) as [E | N].
  - destruct (Req_dec_T n 0) as [_ | N']; [reflexivity | lra].
  - destruct (Req_dec_T n 0) as [E' | _]; [lra |].
    destruct (Req_dec_T 0 0) as [_ | N0]; [| now elim N0].
    destruct (Rlt_dec (2 * n) 0), (Rlt_dec 0 n); try reflexivity; lra.
Qed.

End FactorsMore.

(** ** Cross section: the SI branch *)

Section CrossSectionMore.

Variable nu : Units.
Hypothesis nu_pos : units_positive nu.
Variable s_data : list (dict_key * list R).

(** The Helm form factor at a positive recoil energy, as a real number. *)
Lemma helm_positive_energy (erec anucl : R) :
  0 < anucl -> 0 < erec ->
  exists r : R,
    helm_form_factor_squared nu (Fin erec) (Fin anucl) = Ok (Fin r) /\ 0 <= r.
Proof.
  intros HA He.
  destruct (helm_returns nu nu_pos erec anucl HA) as (rn & mass_kev & Hrn & Hm & ->).
  destruct nu_pos as (Hk & _).
  cbv zeta.
  assert (Hen : 0 < erec / keV nu) by (apply Rdiv_lt_0_compat; lra).
  assert (Harg : 0 < erec / keV nu * 2 * mass_kev) by nra.
  rewrite np_sqrt_fin by lra.
  pose proof (sqrt_lt_R0 _ Harg) as Hq.
  set (q := sqrt (erec / keV nu * 2 * mass_kev)) in *.
  rewrite !fmul_fin. rewrite !np_div_fin by lra.
  assert (Hx : 0 < q * rn / 197327) by (apply Rdiv_lt_0_compat; nra).
  set (x := q * rn / 197327) in *.
  unfold spherical_bessel_j1. cbn [np_sin np_cos]. rewrite fpow_fin.
  assert (Hx2 : 0 < x ^ 2) by nra.
  rewrite !np_div_fin by lra.
  autorewrite with float.
  assert (Hxx : 0 < x * x) by nra.
  rewrite np_div_fin by lra.
  cbn [np_exp]. rewrite fmul_fin.
  eexists. split; [reflexivity |].
  set (j := sin x / x ^ 2 - cos x / x).
  apply Rmult_le_pos; [| left; apply exp_pos].
  apply Rmult_le_pos; [| left; now apply Rinv_0_lt_compat].
  replace (9 * j * j) with (9 * (j * j)) by ring.
  pose proof (Rle_0_sqr j) as Hj. unfold Rsqr in Hj. lra.
Qed.

(** The SI branch followed by the two modifiers. *)
Lemma sigma_erec_SI_stages (erec v mw sigma_nucleon : R) (m_med : float)
    (material : string) (A : R) (n q_ref : option float) :
  dict_lookup ATOMIC_WEIGHT material = Some A ->
  0 < v -> 0 < mw ->
  sigma_erec nu s_data (Fin erec) (Fin v) (Fin mw) (Fin sigma_nucleon)
             "SI" m_med material n q_ref
  = (h <- helm_form_factor_squared nu (Fin erec) (Fin A) ;;
     mf <- mediator_factor nu (Fin erec) m_med material ;;
     let res :=
       (Fin (sigma_nucleon
             * (mw * (A * amu nu) / (mw + A * amu nu)
                / (amu nu * mw / (amu nu + mw))) ^ 2
             * A ^ 2
             / (2 * (mw * (A * amu nu) / (mw + A * amu nu)) ^ 2 * v ^ 2
                / (A * amu nu)))
        * h * mf)%fl in
     match n, q_ref with
     | Some _, Some _ =>
         ef <- extra_momentum_factor nu (Fin erec) m_med material n q_ref ;;
         Ok (res * ef)%fl
     | _, _ => Ok res
     end).
Proof.
  intros HA Hv Hmw.
  pose proof (ATOMIC_WEIGHT_pos _ _ HA) as HAp.
  pose proof (amu_pos nu nu_pos) as Ha.
  assert (Hm : 0 < A * amu nu) by nra.
  pose proof (reduced_mass_pos _ _ Hmw Hm) as HmuN.
  pose proof (reduced_mass_pos _ _ Ha Hmw) as Hmun.
  unfold sigma_erec. cbn [String.eqb Ascii.eqb Bool.eqb].
  rewrite (mu_nucleus_table nu nu_pos _ _ _ HA Hmw). cbn [bind].
  rewrite reduced_mass_fin by assumption. cbn [bind].
  rewrite py_div_fin by lra. cbn [bind].
  unfold dict_get. rewrite HA. cbn [bind].
  rewrite (mn_table nu _ _ HA). cbn [bind].
  rewrite e_max_fin by assumption. cbn [bind].
  autorewrite with float.
  assert (Hem : 0 < 2 * (mw * (A * amu nu) / (mw + A * amu nu)) ^ 2 * v ^ 2
                    / (A * amu nu)).
  { apply Rdiv_lt_0_compat; [| assumption].
    apply Rmult_lt_0_compat; [apply Rmult_lt_0_compat; [lra |] |];
      apply pow_lt; assumption. }
  rewrite py_div_fin by lra.
  cbn [bind].
  destruct (helm_form_factor_squared nu (Fin erec) (Fin A)) as [h | e];
    cbn [bind]; reflexivity.
Qed.

(** X12. At WIMP speed 0 the SI cross section divides by a maximum recoil
    energy of 0 and fails with ZeroDivisionError, whatever the recoil
    energy, the nucleon cross section and the modifiers are. *)
Theorem sigma_erec_SI_zero_speed (erec sigma_nucleon m_med : float) (mw : R)
    (material : string) (A : R) (n q_ref : option float) :
  dict_lookup ATOMIC_WEIGHT material = Some A ->
  0 < mw ->
  sigma_erec nu s_data erec (Fin 0) (Fin mw) sigma_nucleon
             "SI" m_med material n q_ref
  = Raise ZeroDivisionError.
Proof.
  intros HA Hmw.
  pose proof (ATOMIC_WEIGHT_pos _ _ HA) as HAp.
  pose proof (amu_pos nu nu_pos) as Ha.
  assert (Hm : 0 < A * amu nu) by nra.
  pose proof (reduced_mass_pos _ _ Hmw Hm) as HmuN.
  pose proof (reduced_mass_pos _ _ Ha Hmw) as Hmun.
  unfold sigma_erec. cbn [String.eqb Ascii.eqb Bool.eqb].
  rewrite (mu_nucleus_table nu nu_pos _ _ _ HA Hmw). cbn [bind].
  rewrite reduced_mass_fin by assumption. cbn [bind].
  rewrite py_div_fin by lra. cbn [bind].
  unfold dict_get. rewrite HA. cbn [bind].
  rewrite (mn_table nu _ _ HA). cbn [bind].
  rewrite e_max_fin by assumption. cbn [bind].
  replace (2 * (mw * (A * amu nu) / (mw + A * amu nu)) ^ 2 * 0 ^ 2 / (A * amu nu))
    with 0 by (field; lra).
  now rewrite py_div_zero.
Qed.

(** X13. At a positive recoil energy and with a finite mediator mass,
    the SI cross section is the SI cross section of the contact
    interaction times the mediator factor. *)
Theorem sigma_erec_SI_mediator_factor (erec v mw sigma_nucleon m_med : R)
    (material : string) (A : R) :
  dict_lookup ATOMIC_WEIGHT material = Some A ->
  0 < erec -> 0 < v -> 0 < mw ->
  exists s_contact f : R,
    sigma_erec nu s_data (Fin erec) (Fin v) (Fin mw) (Fin sigma_nucleon)
               "SI" PInf material None None = Ok (Fin s_contact)
    /\ mediator_factor nu (Fin erec) (Fin m_med) material = Ok (Fin f)
    /\ sigma_erec nu s_data (Fin erec) (Fin v) (Fin mw) (Fin sigma_nucleon)
                  "SI" (Fin m_med) material None None
       = Ok (Fin (s_contact * f)).
Proof.
  intros HA He Hv Hmw.
  pose proof (ATOMIC_WEIGHT_pos _ _ HA) as HAp.
  pose proof (amu_pos nu nu_pos) as Ha.
  assert (Hc : 0 < c0 nu) by (unfold units_positive in nu_pos; tauto).
  destruct (helm_positive_energy erec A HAp He) as (h & Hh & Hh0).
  assert (Hmed : exists f : R,
             mediator_factor nu (Fin erec) (Fin m_med) material = Ok (Fin f)).
  { rewrite (mediator_factor_finite nu nu_pos _ _ _ _ HA (Rlt_le _ _ He)).
    assert (Hq0 : 0 < sqrt (2 * (A * amu nu) * erec) / c0 nu).
    { apply Rdiv_lt_0_compat; [| assumption].
      apply sqrt_lt_R0. apply Rmult_lt_0_compat; [nra | assumption]. }
    set (q := sqrt (2 * (A * amu nu) * erec) / c0 nu) in *.
    assert (Hq2 : 0 < q ^ 2) by (now apply pow_lt).
    assert (Hm2 : 0 <= m_med ^ 2) by apply pow2_ge_0.
    assert (Hd : 0 < (m_med ^ 2 + q ^ 2) ^ 2) by (apply pow_lt; lra).
    rewrite py_div_fin by lra. eexists. reflexivity. }
  destruct Hmed as (f & Hf).
  rewrite !(sigma_erec_SI_stages _ _ _ _ _ _ _ None None HA Hv Hmw).
  rewrite Hh, Hf, mediator_factor_contact. cbn [bind].
  autorewrite with float.
  do 2 eexists. split; [reflexivity |]. split; [reflexivity |].
  do 2 f_equal. ring.
Qed.

(** X14. With both momentum-dependence parameters and a contact
    mediator, the SI cross section at a positive recoil energy is the
    cross section without them times [(q/qr)^(2n)]. *)
Theorem sigma_erec_SI_momentum_dependence (erec v mw sigma_nucleon n q_ref : R)
    (material : string) (A : R) :
  dict_lookup ATOMIC_WEIGHT material = Some A ->
  0 < erec -> 0 < v -> 0 < mw -> 0 < q_ref ->
  let q := sqrt (2 * (A * amu nu) * erec) / c0 nu in
  let qr := q_ref * MeV nu / c0 nu / GeV nu in
  exists s : R,
    sigma_erec nu s_data (Fin erec) (Fin v) (Fin mw) (Fin sigma_nucleon)
               "SI" PInf material None None = Ok (Fin s)
    /\ sigma_erec nu s_data (Fin erec) (Fin v) (Fin mw) (Fin sigma_nucleon)
                  "SI" PInf material (Some (Fin n)) (Some (Fin q_ref))
       = Ok (Fin (s * Rpower (q / qr) (2 * n))).
Proof.
  intros HA He Hv Hmw Hq q qr.
  pose proof (ATOMIC_WEIGHT_pos _ _ HA) as HAp.
  destruct (helm_positive_energy erec A HAp He) as (h & Hh & Hh0).
  assert (Hq0 : 0 < q).
  { unfold q. destruct nu_pos as (Hk & HM & HG & Hc & Ha & Hmp).
    apply Rdiv_lt_0_compat; [| assumption].
    apply sqrt_lt_R0. apply Rmult_lt_0_compat; [nra | assumption]. }
  assert (Hqr : 0 < qr).
  { unfold qr. destruct nu_pos as (Hk & HM & HG & Hc & Ha & Hmp).
    repeat apply Rdiv_lt_0_compat; try assumption. nra. }
  rewrite !(sigma_erec_SI_stages _ _ _ _ _ _ _ _ _ HA Hv Hmw).
  rewrite Hh, mediator_factor_contact. cbn [bind].
  rewrite (extra_momentum_factor_start nu nu_pos _ _ _ _ _ _ HA) by lra.
  cbv zeta. cbn [feqb]. fold q qr.
  rewrite py_div_fin by lra. cbn [bind].
  rewrite py_pow_pos by (now apply Rdiv_lt_0_compat). cbn [bind].
  autorewrite with float.
  eexists. split; reflexivity.
Qed.

(** X15. The SI cross section is linear in the nucleon cross section and
    falls with the square of the WIMP speed. *)
Theorem sigma_erec_SI_scaling (erec v mw sigma_nucleon c k : R)
    (material : string) (A : R) :
  dict_lookup ATOMIC_WEIGHT material = Some A ->
  0 < erec -> 0 < v -> 0 < mw -> 0 < k ->
  exists s : R,
    sigma_erec nu s_data (Fin erec) (Fin v) (Fin mw) (Fin sigma_nucleon)
               "SI" PInf material None None = Ok (Fin s)
    /\ sigma_erec nu s_data (Fin erec) (Fin (k * v)) (Fin mw)
                  (Fin (c * sigma_nucleon)) "SI" PInf material None None
       = Ok (Fin (c * s / k ^ 2)).
Proof.
  intros HA He Hv Hmw Hk.
  pose proof (ATOMIC_WEIGHT_pos _ _ HA) as HAp.
  pose proof (amu_pos nu nu_pos) as Ha.
  assert (HmA : 0 < A * amu nu) by nra.
  pose proof (reduced_mass_pos _ _ Hmw HmA) as HmuN.
  pose proof (reduced_mass_pos _ _ Ha Hmw) as Hmun.
  destruct (helm_positive_energy erec A HAp He) as (h & Hh & Hh0).
  assert (Hkv : 0 < k * v) by nra.
  rewrite (sigma_erec_SI_stages _ _ _ _ _ _ _ None None HA Hv Hmw).
  rewrite (sigma_erec_SI_stages _ _ _ _ _ _ _ None None HA Hkv Hmw).
  rewrite Hh, mediator_factor_contact. cbn [bind].
  autorewrite with float.
  eexists. split; [reflexivity |].
  do 2 f_equal. field. repeat split; lra.
Qed.


End CrossSectionMore.

(** ** Cross section: the SD branch *)

Lemma unpack3_length {A : Type} (l : list A) :
  List.length l <> 3%nat ->
  unpack3 l
  = Raise (ValueError (if (3 <? List.length l)%nat
                       then TooManyValues 3
                       else NotEnoughValues 3 (List.length l))).
Proof.
  destruct l as [| a [| b [| c [| d l]]]]; cbn; intros H;
    try reflexivity; now elim H.
Qed.

Section SpinDependentMore.

Variable nu : Units.
Hypothesis nu_pos : units_positive nu.
Variable s_data : list (dict_key * list R).

(** One turn of the SD loop, for an isotope whose structure function is
    tabulated. *)
Lemma sd_isotope_value (erec v mw sigma_nucleon : R) (res : float)
    (coupling s_assumption : string) (A : Z) (m J ab : R) (f : interp) :
  0 < v -> 0 < mw -> 0 < m -> 0 <= J ->
  key_lookup (structure_functions s_data) (KSF A coupling s_assumption)
  = Some f ->
  sd_isotope nu s_data (Fin erec) (Fin v) (Fin mw) (Fin sigma_nucleon)
             coupling s_assumption res (A, m, J, ab)
  = Ok (res
        + Fin (ab
               * (sigma_nucleon * 4 * PI
                  * (mw * (m * amu nu) / (mw + m * amu nu)) ^ 2
                  / (3 * (mw * mp nu / (mw + mp nu)) ^ 2 * (2 * J + 1)))
               / (2 * (mw * (m * amu nu) / (mw + m * amu nu)) ^ 2 * v ^ 2
                  / (m * amu nu)))
          * interp_call f (Fin (erec / keV nu)))%fl.
Proof.
  intros Hv Hmw Hm HJ Hf.
  destruct nu_pos as (Hk & HM & HG & Hc & Ha & Hp).
  assert (Hmi : 0 < m * amu nu) by nra.
  pose proof (reduced_mass_pos _ _ Hmw Hmi) as Hmu.
  pose proof (reduced_mass_pos _ _ Hmw Hp) as Hmup.
  unfold sd_isotope, key_get. rewrite Hf. cbn [bind].
  rewrite fmul_fin.
  rewrite !reduced_mass_fin by assumption. cbn [bind].
  autorewrite with float.
  assert (0 < (mw * mp nu / (mw + mp nu)) ^ 2) by (apply pow_lt; assumption).
  rewrite py_div_fin by nra. cbn [bind].
  rewrite e_max_fin by assumption. cbn [bind].
  assert (Hem : 0 < 2 * (mw * (m * amu nu) / (mw + m * amu nu)) ^ 2 * v ^ 2
                    / (m * amu nu)).
  { apply Rdiv_lt_0_compat; [| assumption].
    apply Rmult_lt_0_compat; [apply Rmult_lt_0_compat; [lra |] |];
      apply pow_lt; assumption. }
  rewrite fmul_fin. rewrite py_div_fin by lra. cbn [bind].
  rewrite py_div_fin by lra. cbn [bind].
  reflexivity.
Qed.

(** X17. For xenon and a label 'SD_<coupling>_<assumption>' whose two
    structure functions are tabulated, the SD cross section (contact
    mediator) is the sum over the isotopes 129 and 131 of
    [abundance * x / e_max * S(erec / keV)], with
    [x = sigma_nucleon * 4 pi * mu_isotope^2 / (3 * mu_proton^2 * (2J + 1))]. *)
Theorem sigma_erec_SD_formula (erec v mw sigma_nucleon : R)
    (interaction sd coupling s_assumption : string) (f129 f131 : interp) :
  String.prefix "SD" interaction = true ->
  split "_" interaction = [sd; coupling; s_assumption] ->
  key_lookup (structure_functions s_data) (KSF 129 coupling s_assumption)
  = Some f129 ->
  key_lookup (structure_functions s_data) (KSF 131 coupling s_assumption)
  = Some f131 ->
  0 < v -> 0 < mw ->
  let mu m := mw * (m * amu nu) / (mw + m * amu nu) in
  let x m J := sigma_nucleon * 4 * PI * mu m ^ 2
               / (3 * (mw * mp nu / (mw + mp nu)) ^ 2 * (2 * J + 1)) in
  let emax m := 2 * mu m ^ 2 * v ^ 2 / (m * amu nu) in
  sigma_erec nu s_data (Fin erec) (Fin v) (Fin mw) (Fin sigma_nucleon)
             interaction PInf "Xe" None None
  = Ok (Fin 0
        + Fin (0.26401 * x 128.9047794 (1 / 2) / emax 128.9047794)
          * interp_call f129 (Fin (erec / keV nu))
        + Fin (0.21232 * x 130.9050824 (3 / 2) / emax 130.9050824)
          * interp_call f131 (Fin (erec / keV nu)))%fl.
Proof.
  intros HSD Hsplit H129 H131 Hv Hmw mu x emax.
  unfold sigma_erec.
  destruct (String.eqb_spec interaction "SI") as [-> | _];
    [discriminate HSD |].
  rewrite HSD. cbn [String.eqb Ascii.eqb Bool.eqb negb].
  rewrite Hsplit. cbn [unpack3 bind].
  unfold spin_isotopes. cbn [fold_left bind].
  rewrite (sd_isotope_value _ _ _ _ _ _ _ _ _ _ _ f129)
    by (try assumption; lra).
  cbn [bind].
  rewrite (sd_isotope_value _ _ _ _ _ _ _ _ _ _ _ f131)
    by (try assumption; lra).
  cbn [bind]. rewrite mediator_factor_contact. cbn [bind].
  rewrite fmul_1_r. reflexivity.
Qed.

(** X18. A spin-dependent label is refused for every material other than
    xenon, tabulated or not, before anything else is looked at. *)
Theorem sigma_erec_SD_only_xenon (erec v mw sigma_nucleon m_med : float)
    (interaction material : string) (n q_ref : option float) :
  String.prefix "SD" interaction = true ->
  material <> "Xe"%string ->
  sigma_erec nu s_data erec v mw sigma_nucleon interaction m_med material
             n q_ref
  = Raise (NotImplementedError
             ("SD for " ++ material ++ "-detectors not available")).
Proof.
  intros HSD HXe. unfold sigma_erec.
  destruct (String.eqb_spec interaction "SI") as [-> | _];
    [discriminate HSD |].
  rewrite HSD.
  destruct (String.eqb_spec material "Xe") as [E | _]; [contradiction |].
  reflexivity.
Qed.

(** X19. For xenon, a label that starts with 'SD' and does not split at
    '_' into exactly three fields fails in the tuple unpacking: with
    "too many values" for more than three fields and with "not enough
    values" for fewer. *)
Theorem sigma_erec_SD_label_fields (erec v mw sigma_nucleon m_med : float)
    (interaction : string) (n q_ref : option float) :
  String.prefix "SD" interaction = true ->
  List.length (split "_" interaction) <> 3%nat ->
  sigma_erec nu s_data erec v mw sigma_nucleon interaction m_med "Xe" n q_ref
  = Raise (ValueError
             (if (3 <? List.length (split "_" interaction))%nat
              then TooManyValues 3
              else NotEnoughValues 3 (List.length (split "_" interaction)))).
Proof.
  intros HSD Hlen. unfold sigma_erec.
  destruct (String.eqb_spec interaction "SI") as [-> | _];
    [discriminate HSD |].
  rewrite HSD. cbn [String.eqb Ascii.eqb Bool.eqb negb].
  rewrite (unpack3_length _ Hlen). reflexivity.
Qed.

(** X20. For xenon and a three-field SD label whose structure function
    for isotope 129 is not tabulated, the call fails with the KeyError of
    that key. *)
Theorem sigma_erec_SD_untabulated (erec v mw sigma_nucleon m_med : float)
    (interaction sd coupling s_assumption : string) (n q_ref : option float) :
  String.prefix "SD" interaction = true ->
  split "_" interaction = [sd; coupling; s_assumption] ->
  key_lookup (structure_functions s_data) (KSF 129 coupling s_assumption)
  = None ->
  sigma_erec nu s_data erec v mw sigma_nucleon interaction m_med "Xe" n q_ref
  = Raise (KeyError (KSF 129 coupling s_assumption)).
Proof.
  intros HSD Hsplit Hk. unfold sigma_erec.
  destruct (String.eqb_spec interaction "SI") as [-> | _];
    [discriminate HSD |].
  rewrite HSD. cbn [String.eqb Ascii.eqb Bool.eqb negb].
  rewrite Hsplit. cbn [unpack3 bind].
  unfold spin_isotopes. cbn [fold_left bind].
  unfold sd_isotope at 1. unfold key_get. rewrite Hk. reflexivity.
Qed.

End SpinDependentMore.

(** ** Momentum-dependence parameters and the structure-function table *)

(** X21. When both entries are present, [_warn_momentum_dependence]
    accepts the parameters exactly when [n] and [q_ref] are both given or
    both None, and otherwise raises its ValueError. *)
Theorem warn_momentum_dependence_accepts
    (erec_kwargs : list (string * option float)) (n q_ref : option float) :
  dict_lookup erec_kwargs "n" = Some n ->
  dict_lookup erec_kwargs "q_ref" = Some q_ref ->
  (_warn_momentum_dependence erec_kwargs = Ok tt
   <-> (n = None <-> q_ref = None))
  /\ (_warn_momentum_dependence erec_kwargs <> Ok tt ->
      _warn_momentum_dependence erec_kwargs
      = Raise (ValueError (MomentumParams n q_ref))).
Proof.
  intros Hn Hq. unfold _warn_momentum_dependence, dict_get.
  rewrite Hn, Hq. cbn [bind].
  destruct n as [n' |], q_ref as [q' |]; cbn [is_none xorb]; split;
    try (split; [intros _; split; congruence
                | intros; reflexivity]);
    try (split; [discriminate | intros [H1 H2]; try discriminate (H1 eq_refl);
                                try discriminate (H2 eq_refl)]);
    try (intros H; now elim H); try reflexivity.
Qed.

Lemma key_eqb_refl (k : dict_key) : key_eqb k k = true.
Proof. now apply key_eqb_eq. Qed.

Lemma key_lookup_set_eq {V : Type} (d : list (dict_key * V)) (k k' : dict_key)
    (v : V) :
  key_lookup (key_set d k v) k'
  = if key_eqb k k' then Some v else key_lookup d k'.
Proof.
  induction d as [| (k0 & v0) d IH]; cbn [key_set key_lookup].
  - reflexivity.
  - destruct (key_eqb k0 k) eqn:E; cbn [key_lookup].
    + apply key_eqb_eq in E. subst k0.
      destruct (key_eqb k k'); reflexivity.
    + destruct (key_eqb k0 k') eqn:E'.
      * apply key_eqb_eq in E'. subst k0.
        destruct (key_eqb k k') eqn:E''; [| reflexivity].
        apply key_eqb_eq in E''. subst k'.
        rewrite key_eqb_refl in E. discriminate.
      * exact IH.
Qed.

Section TableMore.

Variable s_data : list (dict_key * list R).

Lemma structure_functions_fold (l : list (dict_key * list R))
    (acc : list (dict_key * interp)) (k : dict_key) :
  key_lookup
    (fold_left
       (fun acc kv =>
          let '(_k, _v) := kv in
          if key_eqb _k (KStr "_energies") then acc
          else key_set acc _k (interp1d (s_energies s_data) _v (Fin 0)))
       l acc) k <> None
  <-> key_lookup acc k <> None
      \/ (k <> KStr "_energies" /\ exists v, In (k, v) l).
Proof.
  revert acc. induction l as [| (k0 & v0) l IH]; intros acc; cbn [fold_left].
  - split; [now left | intros [H | (_ & v & [])]; exact H].
  - rewrite IH. destruct (key_eqb k0 (KStr "_energies")) eqn:E.
    + apply key_eqb_eq in E. subst k0. split.
      * intros [H | (Hk & v & Hin)]; [now left |].
        right. split; [assumption |]. exists v. now right.
      * intros [H | (Hk & v & [Hin | Hin])]; [now left | |].
        -- inversion Hin. congruence.
        -- right. split; [assumption |]. now exists v.
    + rewrite key_lookup_set_eq. destruct (key_eqb k0 k) eqn:E'.
      * apply key_eqb_eq in E'. subst k0. split; intros _.
        -- right. split; [| exists v0; now left].
           intros ->. rewrite key_eqb_refl in E. discriminate.
        -- left. discriminate.
      * split.
        -- intros [H | (Hk & v & Hin)]; [now left |].
           right. split; [assumption |]. exists v. now right.
        -- intros [H | (Hk & v & [Hin | Hin])]; [now left | |].
           ++ inversion Hin. subst. rewrite key_eqb_refl in E'. discriminate.
           ++ right. split; [assumption |]. now exists v.
Qed.

(** X22. [structure_functions] has exactly the keys of the pickle other
    than '_energies', and every interpolant in it fills with 0 outside
    its grid. *)
Theorem structure_functions_keys :
  key_lookup (structure_functions s_data) (KStr "_energies") = None
  /\ (forall k : dict_key,
        k <> KStr "_energies" ->
        (key_lookup (structure_functions s_data) k <> None
         <-> exists v, In (k, v) s_data))
  /\ (forall (k : dict_key) (f : interp),
        key_lookup (structure_functions s_data) k = Some f ->
        fill_value f = Fin 0).
Proof.
  split; [| split].
  - destruct (key_lookup (structure_functions s_data) (KStr "_energies"))
      as [f |] eqn:E; [| reflexivity].
    assert (H : key_lookup (structure_functions s_data) (KStr "_energies")
                <> None) by congruence.
    apply structure_functions_fold in H as [H | (H & _)]; now elim H.
  - intros k Hk. unfold structure_functions.
    rewrite structure_functions_fold. cbn [key_lookup]. split.
    + intros [H | (_ & H)]; [now elim H | exact H].
    + intros H. right. now split.
  - intros k f H.
    destruct (structure_functions_entries s_data _ _ H) as (k' & v & _ & _ & ->).
    reflexivity.
Qed.

End TableMore.

(** ** Form factor *)

(** X23. The Bessel function of the module is odd:
    [j1(-x) = -j1(x)], NaN at 0 on both sides. *)
Theorem spherical_bessel_j1_odd (x : R) :
  spherical_bessel_j1 (Fin (- x)) = fneg (spherical_bessel_j1 (Fin x)).
Proof.
  unfold spherical_bessel_j1. cbn [np_sin np_cos]. rewrite !fpow_fin.
  destruct (Req_dec_T x 0) as [-> | Hx].
  - rewrite Ropp_0, sin_0. replace (0 ^ 2) with 0 by ring.
    unfold np_div, inf_of_sign.
    destruct (Req_dec_T 0 0) as [_ | N]; [reflexivity | now elim N].
  - assert (Hx2 : x ^ 2 <> 0) by (apply pow_nonzero; assumption).
    assert (Hn : - x <> 0) by lra.
    assert (Hn2 : (- x) ^ 2 <> 0) by (apply pow_nonzero; assumption).
    rewrite !np_div_fin by assumption.
    rewrite !fsub_fin, fneg_fin, sin_neg, cos_neg.
    f_equal. field. assumption.
Qed.

Section FormFactorMore.

Variable nu : Units.
Hypothesis nu_pos : units_positive nu.

(** X24. A negative recoil energy is not refused by the form factor: for
    a positive mass number the result is NaN. *)
Theorem helm_negative_energy (erec anucl : R) :
  0 < anucl -> erec < 0 ->
  helm_form_factor_squared nu (Fin erec) (Fin anucl) = Ok NaN.
Proof.
  intros HA He.
  destruct (helm_returns nu nu_pos erec anucl HA)
    as (rn & mass_kev & Hrn & Hm & ->).
  destruct nu_pos as (Hk & _).
  f_equal. cbv zeta.
  assert (Hen : erec / keV nu < 0).
  { unfold Rdiv. assert (0 < / keV nu) by now apply Rinv_0_lt_compat. nra. }
  assert (Harg : erec / keV nu * 2 * mass_kev < 0) by nra.
  unfold np_sqrt.
  destruct (Rlt_dec (erec / keV nu * 2 * mass_kev) 0) as [_ | N];
    [reflexivity | contradiction].
Qed.

End FormFactorMore.

(** ** Rate: what reaches the integrator *)

Lemma dict_lookup_filter {V : Type} (p : string -> bool)
    (d : list (string * V)) (k : string) :
  dict_lookup (filter (fun kv => negb (p (fst kv))) d) k
  = if p k then None else dict_lookup d k.
Proof.
  induction d as [| (k0 & v0) d IH]; cbn [filter dict_lookup fst].
  - now destruct (p k).
  - destruct (p k0) eqn:E0; cbn [negb dict_lookup].
    + rewrite IH. destruct (p k) eqn:E; [reflexivity |].
      destruct (String.eqb_spec k0 k) as [-> | _]; [congruence | reflexivity].
    + destruct (String.eqb_spec k0 k) as [-> | _].
      * now rewrite E0.
      * exact IH.
Qed.

Section RateMore.

Variable nu : Units.
Hypothesis nu_pos : units_positive nu.
Variable s_data : list (dict_key * list R).
Variable StandardHaloModel : HaloModel.
Variable v_max : option float -> float -> float.
Variable quad : (float -> result float) -> float -> float ->
                list (string * option float) -> result float.

Local Notation "'rate_scalar'" :=
  (rate_elastic_scalar nu s_data StandardHaloModel v_max quad).
Local Notation "'resolve' halo" :=
  (match halo with None => StandardHaloModel | Some h => h end)
  (at level 10, halo at level 9).
Local Notation "'stripped' kwargs" :=
  (filter
     (fun kv : string * option float =>
        negb (dict_mem [ ("n"%string, kwargs_get kwargs "n");
                         ("q_ref"%string, kwargs_get kwargs "q_ref") ]
                       (fst kv)))
     kwargs)
  (at level 10, kwargs at level 9).

Lemma rate_scalar_trace (erec mw sigma_nucleon : float)
    (interaction : string) (m_med : float) (t : option float)
    (material : string) (halo_model : option HaloModel)
    (kwargs : list (string * option float)) (tr : list event) :
  snd (rate_scalar erec mw sigma_nucleon interaction m_med t material
                   halo_model kwargs tr) = tr
  \/ exists v_min : float,
      vmin_elastic nu erec mw material = Ok v_min
      /\ (v_min >=? v_max t (v_esc (resolve halo_model)))%fl = false
      /\ xorb (is_none (kwargs_get kwargs "n"))
              (is_none (kwargs_get kwargs "q_ref")) = false
      /\ snd (rate_scalar erec mw sigma_nucleon interaction m_med t material
                          halo_model kwargs tr)
         = tr ++ [QuadCall v_min (v_max t (v_esc (resolve halo_model)))
                           (stripped kwargs)].
Proof.
  unfold rate_elastic_scalar, ebind, lift, eret, call_quad.
  destruct (vmin_elastic nu erec mw material) as [v_min | e]; [| now left].
  destruct (v_min >=? v_max t (v_esc (resolve halo_model)))%fl eqn:Hge;
    [now left |].
  unfold _warn_momentum_dependence, dict_get.
  cbn [dict_lookup String.eqb Ascii.eqb Bool.eqb bind].
  destruct (xorb _ _) eqn:Hx; [now left |].
  destruct (py_div (rho_dm (resolve halo_model)) mw) as [r | e]; [| now left].
  destruct (mn nu material) as [m | e]; [| now left].
  destruct (py_div (Fin 1) m) as [u | e]; [| now left].
  right. exists v_min. repeat split; try assumption.
  destruct (quad _ _ _ _) as [i | e]; reflexivity.
Qed.

Lemma rate_scalar_open (erec : float) (mw : R) (sigma_nucleon : float)
    (interaction : string) (m_med : float) (t : option float)
    (material : string) (w : R) (halo_model : option HaloModel)
    (kwargs : list (string * option float)) (tr : list event)
    (v_min : float) :
  dict_lookup ATOMIC_WEIGHT material = Some w ->
  mw <> 0 ->
  vmin_elastic nu erec (Fin mw) material = Ok v_min ->
  (v_min >=? v_max t (v_esc (resolve halo_model)))%fl = false ->
  xorb (is_none (kwargs_get kwargs "n")) (is_none (kwargs_get kwargs "q_ref"))
  = false ->
  snd (rate_scalar erec (Fin mw) sigma_nucleon interaction m_med t
                   material halo_model kwargs tr)
  = tr ++ [QuadCall v_min (v_max t (v_esc (resolve halo_model)))
                    (stripped kwargs)].
Proof.
  intros Hw Hmw Hv Hge Hx.
  pose proof (ATOMIC_WEIGHT_pos _ _ Hw) as Hp.
  pose proof (amu_pos nu nu_pos) as Ha.
  unfold rate_elastic_scalar, ebind, lift, eret, call_quad.
  rewrite Hv, Hge.
  unfold _warn_momentum_dependence, dict_get.
  cbn [dict_lookup String.eqb Ascii.eqb Bool.eqb bind].
  rewrite Hx.
  assert (Hdiv : exists r, py_div (rho_dm (resolve halo_model)) (Fin mw) = Ok r).
  { unfold py_div. destruct (Req_dec_T mw 0); [contradiction | eauto]. }
  destruct Hdiv as (r & ->).
  rewrite (mn_table nu _ _ Hw).
  rewrite py_div_fin by nra.
  destruct (quad _ _ _ _) as [i | e]; reflexivity.
Qed.

(** X25. A scalar rate call invokes the integrator at most once, and only
    after [vmin_elastic] returned a minimum velocity that is not
    [>= v_max] and the momentum-dependence parameters passed the check;
    the integration runs from that minimum velocity to [v_max], with the
    keyword arguments other than [n] and [q_ref]. *)
Theorem rate_elastic_integrator_calls (erec mw sigma_nucleon : float)
    (interaction : string) (m_med : float) (t : option float)
    (material : string) (halo_model : option HaloModel)
    (kwargs : list (string * option float)) (tr : list event) :
  snd (rate_elastic nu s_data StandardHaloModel v_max quad (Scalar erec) mw
         sigma_nucleon interaction m_med t material halo_model kwargs tr) = tr
  \/ exists v_min : float,
      vmin_elastic nu erec mw material = Ok v_min
      /\ (v_min >=? v_max t (v_esc (resolve halo_model)))%fl = false
      /\ xorb (is_none (kwargs_get kwargs "n"))
              (is_none (kwargs_get kwargs "q_ref")) = false
      /\ snd (rate_elastic nu s_data StandardHaloModel v_max quad
                (Scalar erec) mw sigma_nucleon interaction m_med t material
                halo_model kwargs tr)
         = tr ++ [QuadCall v_min (v_max t (v_esc (resolve halo_model)))
                           (stripped kwargs)].
Proof.
  assert (Hsnd :
    snd (rate_elastic nu s_data StandardHaloModel v_max quad (Scalar erec) mw
           sigma_nucleon interaction m_med t material halo_model kwargs tr)
    = snd (rate_scalar erec mw sigma_nucleon interaction m_med t material
                       halo_model kwargs tr)).
  { rewrite rate_on_scalar.
    destruct (rate_scalar erec mw sigma_nucleon interaction m_med t material
                          halo_model kwargs tr) as [[y | e] tr']; reflexivity. }
  rewrite Hsnd.
  destruct (rate_scalar_trace erec mw sigma_nucleon interaction m_med t
              material halo_model kwargs tr) as [H | (v_min & Hv & Hge & Hx & H)].
  - now left.
  - right. exists v_min. repeat split; assumption.
Qed.

(** X26. The keyword arguments the integrator receives never contain [n]
    or [q_ref], and every other keyword argument reaches it unchanged. *)
Theorem rate_elastic_quad_kwargs (erec mw sigma_nucleon : float)
    (interaction : string) (m_med : float) (t : option float)
    (material : string) (halo_model : option HaloModel)
    (kwargs : list (string * option float)) (tr : list event)
    (a b : float) (kw : list (string * option float)) :
  snd (rate_scalar erec mw sigma_nucleon interaction m_med t material
                   halo_model kwargs tr) = tr ++ [QuadCall a b kw] ->
  dict_lookup kw "n" = None
  /\ dict_lookup kw "q_ref" = None
  /\ forall k : string,
      k <> "n"%string -> k <> "q_ref"%string ->
      dict_lookup kw k = dict_lookup kwargs k.
Proof.
  intros H.
  destruct (rate_scalar_trace erec mw sigma_nucleon interaction m_med t
              material halo_model kwargs tr) as [E | (v_min & _ & _ & _ & E)].
  - rewrite E in H. apply (f_equal (@List.length event)) in H.
    rewrite length_app in H. cbn in H. lia.
  - rewrite E in H. apply app_inv_head in H. inversion H; subst.
    split; [| split].
    + now rewrite dict_lookup_filter.
    + now rewrite dict_lookup_filter.
    + intros k Hn Hq. rewrite dict_lookup_filter.
      unfold dict_mem. cbn [dict_lookup].
      destruct (String.eqb_spec "n" k) as [<- | _]; [now elim Hn |].
      destruct (String.eqb_spec "q_ref" k) as [<- | _]; [now elim Hq |].
      reflexivity.
Qed.

(** X27. A negative recoil energy does not stop the rate: the minimum
    velocity is NaN, the early return is not taken, and the integrator is
    invoked with NaN as its lower limit. *)
Theorem rate_elastic_negative_energy (erec mw : R) (sigma_nucleon : float)
    (interaction : string) (m_med : float) (t : option float)
    (material : string) (w : R) (halo_model : option HaloModel)
    (kwargs : list (string * option float)) (tr : list event) :
  dict_lookup ATOMIC_WEIGHT material = Some w ->
  0 < mw -> erec < 0 ->
  xorb (is_none (kwargs_get kwargs "n")) (is_none (kwargs_get kwargs "q_ref"))
  = false ->
  snd (rate_scalar (Fin erec) (Fin mw) sigma_nucleon interaction m_med t
                   material halo_model kwargs tr)
  = tr ++ [QuadCall NaN (v_max t (v_esc (resolve halo_model)))
                    (stripped kwargs)].
Proof.
  intros Hw Hmw He Hx.
  pose proof (ATOMIC_WEIGHT_pos _ _ Hw) as Hp.
  assert (Hv : vmin_elastic nu (Fin erec) (Fin mw) material = Ok NaN).
  { rewrite (vmin_elastic_table nu nu_pos _ _ _ _ Hw Hmw).
    pose proof (vmin_argument_negative nu nu_pos erec mw w Hp Hmw He) as HX.
    unfold np_sqrt.
    destruct (Rlt_dec _ 0) as [_ | N]; [reflexivity | contradiction]. }
  apply (rate_scalar_open _ _ _ _ _ _ _ w); try assumption; [lra |].
  now destruct (v_max t (v_esc (resolve halo_model))).
Qed.

End RateMore.

(** ** The further properties on concrete inputs *)

Lemma e_max_kinetic_fraction_witness :
  exists E : R,
    e_max keV_units (Fin 50000000) (Fin 0.001) (Some (Fin 120000000))
    = Ok (Fin E)
    /\ 0 <= E
    /\ E = 50000000 * 0.001 ^ 2 / 2
           * (4 * 50000000 * 120000000 / (50000000 + 120000000) ^ 2).
Proof.
  apply (e_max_kinetic_fraction keV_units 50000000 0.001 120000000); lra.
Defined.

Lemma e_max_inverts_vmin_elastic_witness :
  units_positive keV_units
  /\ (v <- vmin_elastic keV_units (Fin 10) (Fin 50000000) "Xe" ;;
      m <- mn keV_units "Xe" ;;
      e_max keV_units (Fin 50000000) v (Some m)) = Ok (Fin 10).
Proof.
  split; [exact keV_units_positive |].
  apply (e_max_inverts_vmin_elastic keV_units keV_units_positive
           10 50000000 "Xe" 131.293); [reflexivity | lra | lra].
Defined.

Lemma vmin_elastic_monotone_witness :
  units_positive keV_units
  /\ exists v1 v2 : R,
       vmin_elastic keV_units (Fin 1) (Fin 50000000) "Xe" = Ok (Fin v1)
       /\ vmin_elastic keV_units (Fin 10) (Fin 50000000) "Xe" = Ok (Fin v2)
       /\ 0 <= v1 /\ v1 <= v2.
Proof.
  split; [exact keV_units_positive |].
  apply (vmin_elastic_monotone keV_units keV_units_positive
           1 10 50000000 "Xe" 131.293); [reflexivity | lra | lra | lra].
Defined.


Lemma vmin_elastic_zero_mass_witness :
  units_positive keV_units
  /\ mu_nucleus keV_units (Fin 0) "Xe" = Ok (Fin 0)
  /\ vmin_elastic keV_units (Fin 10) (Fin 0) "Xe" = Raise ZeroDivisionError.
Proof.
  split; [exact keV_units_positive |].
  apply (vmin_elastic_zero_mass keV_units keV_units_positive 10 "Xe" 131.293).
  reflexivity.
Defined.

Lemma mediator_factor_propagator_witness :
  units_positive keV_units
  /\ exists f : R,
       mediator_factor keV_units (Fin 10) (Fin 1000) "Xe" = Ok (Fin f)
       /\ 0 < f
       /\ f = / (1 + (sqrt (2 * (131.293 * amu keV_units) * 10)
                      / c0 keV_units / 1000) ^ 2) ^ 2.
Proof.
  split; [exact keV_units_positive |].
  apply (mediator_factor_propagator keV_units keV_units_positive
           10 1000 "Xe" 131.293); [reflexivity | lra | lra].
Defined.

Lemma mediator_factor_zero_mass_witness :
  units_positive keV_units
  /\ mediator_factor keV_units (Fin 10) (Fin 0) "Xe" = Ok (Fin 0)
  /\ mediator_factor keV_units (Fin 0) (Fin 0) "Xe" = Raise ZeroDivisionError.
Proof.
  split; [exact keV_units_positive |].
  destruct (mediator_factor_zero_mass keV_units keV_units_positive
              10 "Xe" 131.293 eq_refl) as (Hpos & Hzero).
  split; [apply Hpos; lra | exact Hzero].
Defined.

Lemma extra_momentum_factor_at_reference_witness :
  let q_ref := 1000 * sqrt (2 * (131.293 * amu keV_units) * 10) in
  units_positive keV_units
  /\ 0 < q_ref
  /\ extra_momentum_factor keV_units (Fin 10) PInf "Xe"
                           (Some (Fin 2)) (Some (Fin q_ref)) = Ok (Fin 1)
  /\ extra_momentum_factor keV_units (Fin 10) (Fin 1000) "Xe"
                           (Some (Fin 2)) (Some (Fin q_ref)) = Ok (Fin 1).
Proof.
  intros q_ref.
  assert (Hq : 0 < q_ref).
  { unfold q_ref. cbn [amu keV_units].
    apply Rmult_lt_0_compat; [lra | apply sqrt_lt_R0; lra]. }
  assert (Href : sqrt (2 * (131.293 * amu keV_units) * 10) / c0 keV_units
                 = q_ref * MeV keV_units / c0 keV_units / GeV keV_units).
  { unfold q_ref. cbn [amu c0 MeV GeV keV_units]. field. }
  destruct (extra_momentum_factor_at_reference keV_units keV_units_positive
              10 2 q_ref "Xe" 131.293 eq_refl ltac:(lra) Hq Href)
    as (Hinf & Hfin).
  split; [exact keV_units_positive |].
  split; [exact Hq |].
  split; [exact Hinf | apply Hfin].
Defined.

Lemma extra_momentum_factor_zero_energy_witness :
  units_positive keV_units
  /\ extra_momentum_factor keV_units (Fin 0) PInf "Xe"
                           (Some (Fin 2)) (Some (Fin 100)) = Ok (Fin 0)
  /\ extra_momentum_factor keV_units (Fin 0) PInf "Xe"
                           (Some (Fin (-1))) (Some (Fin 100))
     = Raise ZeroDivisionError.
Proof.
  split; [exact keV_units_positive |].
  split.
  - rewrite (extra_momentum_factor_zero_energy keV_units keV_units_positive
               2 100 "Xe" 131.293) by (reflexivity || lra).
    destruct (Req_dec_T 2 0); [lra |].
    destruct (Rlt_dec 0 2); [reflexivity | lra].
  - rewrite (extra_momentum_factor_zero_energy keV_units keV_units_positive
               (-1) 100 "Xe" 131.293) by (reflexivity || lra).
    destruct (Req_dec_T (-1) 0); [lra |].
    destruct (Rlt_dec 0 (-1)); [lra | reflexivity].
Defined.

Lemma sigma_erec_SI_zero_speed_witness :
  units_positive keV_units
  /\ sigma_erec keV_units example_s_data (Fin 10) (Fin 0) (Fin 50000000)
                (Fin 1) "SI" PInf "Xe" None None
     = Raise ZeroDivisionError.
Proof.
  split; [exact keV_units_positive |].
  apply (sigma_erec_SI_zero_speed keV_units keV_units_positive example_s_data
           (Fin 10) (Fin 1) PInf 50000000 "Xe" 131.293); [reflexivity | lra].
Defined.

Lemma sigma_erec_SI_mediator_factor_witness :
  units_positive keV_units
  /\ exists s_contact f : R,
       sigma_erec keV_units example_s_data (Fin 10) (Fin 0.001) (Fin 50000000)
                  (Fin 1) "SI" PInf "Xe" None None = Ok (Fin s_contact)
       /\ mediator_factor keV_units (Fin 10) (Fin 1000) "Xe" = Ok (Fin f)
       /\ sigma_erec keV_units example_s_data (Fin 10) (Fin 0.001)
                     (Fin 50000000) (Fin 1) "SI" (Fin 1000) "Xe" None None
          = Ok (Fin (s_contact * f)).
Proof.
  split; [exact keV_units_positive |].
  apply (sigma_erec_SI_mediator_factor keV_units keV_units_positive
           example_s_data 10 0.001 50000000 1 1000 "Xe" 131.293);
    [reflexivity | lra | lra | lra].
Defined.

Lemma sigma_erec_SI_momentum_dependence_witness :
  units_positive keV_units
  /\ exists s : R,
       sigma_erec keV_units example_s_data (Fin 10) (Fin 0.001) (Fin 50000000)
                  (Fin 1) "SI" PInf "Xe" None None = Ok (Fin s)
       /\ sigma_erec keV_units example_s_data (Fin 10) (Fin 0.001)
                     (Fin 50000000) (Fin 1) "SI" PInf "Xe"
                     (Some (Fin 2)) (Some (Fin 100))
          = Ok (Fin (s * Rpower
                           (sqrt (2 * (131.293 * amu keV_units) * 10)
                            / c0 keV_units
                            / (100 * MeV keV_units / c0 keV_units
                               / GeV keV_units))
                           (2 * 2))).
Proof.
  split; [exact keV_units_positive |].
  apply (sigma_erec_SI_momentum_dependence keV_units keV_units_positive
           example_s_data 10 0.001 50000000 1 2 100 "Xe" 131.293);
    [reflexivity | lra | lra | lra | lra].
Defined.

Lemma sigma_erec_SI_scaling_witness :
  units_positive keV_units
  /\ exists s : R,
       sigma_erec keV_units example_s_data (Fin 10) (Fin 0.001) (Fin 50000000)
                  (Fin 1) "SI" PInf "Xe" None None = Ok (Fin s)
       /\ sigma_erec keV_units example_s_data (Fin 10) (Fin (3 * 0.001))
                     (Fin 50000000) (Fin (2 * 1)) "SI" PInf "Xe" None None
          = Ok (Fin (2 * s / 3 ^ 2)).
Proof.
  split; [exact keV_units_positive |].
  apply (sigma_erec_SI_scaling keV_units keV_units_positive example_s_data
           10 0.001 50000000 1 2 3 "Xe" 131.293);
    [reflexivity | lra | lra | lra | lra].
Defined.


Lemma sigma_erec_SD_formula_witness :
  let f129 := interp1d [0; 50; 100] [0.03; 0.01; 0.002] (Fin 0) in
  let f131 := interp1d [0; 50; 100] [0.02; 0.008; 0.001] (Fin 0) in
  let mw := 50000000 in
  let v := 0.001 in
  let mu m := mw * (m * amu keV_units) / (mw + m * amu keV_units) in
  let x m J := 1 * 4 * PI * mu m ^ 2
               / (3 * (mw * mp keV_units / (mw + mp keV_units)) ^ 2
                  * (2 * J + 1)) in
  let emax m := 2 * mu m ^ 2 * v ^ 2 / (m * amu keV_units) in
  units_positive keV_units
  /\ sigma_erec keV_units example_s_data (Fin 20) (Fin v) (Fin mw) (Fin 1)
                "SD_n_central" PInf "Xe" None None
     = Ok (Fin 0
           + Fin (0.26401 * x 128.9047794 (1 / 2) / emax 128.9047794)
             * interp_call f129 (Fin (20 / keV keV_units))
           + Fin (0.21232 * x 130.9050824 (3 / 2) / emax 130.9050824)
             * interp_call f131 (Fin (20 / keV keV_units)))%fl.
Proof.
  intros f129 f131 mw v mu x emax.
  split; [exact keV_units_positive |].
  apply (sigma_erec_SD_formula keV_units keV_units_positive example_s_data
           20 v mw 1 "SD_n_central" "SD" "n" "central" f129 f131);
    [reflexivity | reflexivity | reflexivity | reflexivity
     | unfold v; lra | unfold mw; lra].
Defined.

Lemma sigma_erec_SD_only_xenon_witness :
  sigma_erec keV_units example_s_data (Fin 10) (Fin 0.001) (Fin 50000000)
             (Fin 1) "SD_n_central" PInf "Ar" None None
  = Raise (NotImplementedError "SD for Ar-detectors not available").
Proof.
  apply (sigma_erec_SD_only_xenon keV_units example_s_data);
    [reflexivity | discriminate].
Defined.

Lemma sigma_erec_SD_label_fields_witness :
  sigma_erec keV_units example_s_data (Fin 10) (Fin 0.001) (Fin 50000000)
             (Fin 1) "SD_n_central_x" PInf "Xe" None None
  = Raise (ValueError (TooManyValues 3))
  /\ sigma_erec keV_units example_s_data (Fin 10) (Fin 0.001) (Fin 50000000)
                (Fin 1) "SD_n" PInf "Xe" None None
     = Raise (ValueError (NotEnoughValues 3 2)).
Proof.
  split.
  - apply (sigma_erec_SD_label_fields keV_units example_s_data (Fin 10)
             (Fin 0.001) (Fin 50000000) (Fin 1) PInf "SD_n_central_x" None None);
      [reflexivity | cbn; lia].
  - apply (sigma_erec_SD_label_fields keV_units example_s_data (Fin 10)
             (Fin 0.001) (Fin 50000000) (Fin 1) PInf "SD_n" None None);
      [reflexivity | cbn; lia].
Defined.

Lemma sigma_erec_SD_untabulated_witness :
  sigma_erec keV_units example_s_data (Fin 10) (Fin 0.001) (Fin 50000000)
             (Fin 1) "SD_p_up" PInf "Xe" None None
  = Raise (KeyError (KSF 129 "p" "up")).
Proof.
  apply (sigma_erec_SD_untabulated keV_units example_s_data (Fin 10)
           (Fin 0.001) (Fin 50000000) (Fin 1) PInf "SD_p_up" "SD" "p" "up");
    reflexivity.
Defined.

Lemma warn_momentum_dependence_accepts_witness :
  (_warn_momentum_dependence
     [("n"%string, Some (Fin 2)); ("q_ref"%string, None)] = Ok tt
   <-> (Some (Fin 2) = None <-> @None float = None))
  /\ (_warn_momentum_dependence
        [("n"%string, Some (Fin 2)); ("q_ref"%string, None)] <> Ok tt ->
      _warn_momentum_dependence
        [("n"%string, Some (Fin 2)); ("q_ref"%string, None)]
      = Raise (ValueError (MomentumParams (Some (Fin 2)) None))).
Proof.
  apply (warn_momentum_dependence_accepts
           [("n"%string, Some (Fin 2)); ("q_ref"%string, None)]);
    reflexivity.
Defined.

Lemma helm_negative_energy_witness :
  units_positive keV_units
  /\ helm_form_factor_squared keV_units (Fin (-1)) (Fin 131.293) = Ok NaN.
Proof.
  split; [exact keV_units_positive |].
  apply (helm_negative_energy keV_units keV_units_positive (-1) 131.293); lra.
Defined.

Lemma rate_elastic_quad_kwargs_witness :
  let kwargs := [ ("epsabs"%string, Some (Fin 0.001));
                  ("n"%string, Some (Fin 2));
                  ("q_ref"%string, Some (Fin 100)) ] in
  exists (a b : float) (kw : list (string * option float)),
    snd (rate_elastic_scalar keV_units example_s_data example_halo
           example_v_max rectangle_quad (Fin 10) (Fin 50000000) (Fin 1) "SI"
           PInf None "Xe" None kwargs [])
    = [] ++ [QuadCall a b kw]
    /\ dict_lookup kw "n" = None
    /\ dict_lookup kw "q_ref" = None
    /\ dict_lookup kw "epsabs" = Some (Some (Fin 0.001)).
Proof.
  intros kwargs.
  destruct vmin_below_v_max as (v_min & Hv & Hge).
  pose proof (rate_scalar_open keV_units keV_units_positive example_s_data
                example_halo example_v_max rectangle_quad (Fin 10) 50000000
                (Fin 1) "SI" PInf None "Xe" 131.293 None kwargs [] (Fin v_min)
                eq_refl ltac:(lra) Hv Hge eq_refl) as Htr.
  destruct (rate_elastic_quad_kwargs keV_units example_s_data example_halo
              example_v_max rectangle_quad (Fin 10) (Fin 50000000) (Fin 1)
              "SI" PInf None "Xe" None kwargs [] _ _ _ Htr)
    as (Hn & Hq & Hother).
  do 3 eexists. split; [exact Htr |].
  split; [exact Hn |]. split; [exact Hq |].
  rewrite Hother by discriminate. reflexivity.
Defined.

Lemma rate_elastic_negative_energy_witness :
  units_positive keV_units
  /\ snd (rate_elastic_scalar keV_units example_s_data example_halo
            example_v_max rectangle_quad (Fin (-1)) (Fin 50000000) (Fin 1)
            "SI" PInf None "Xe" None [] [])
     = [] ++ [QuadCall NaN (example_v_max None (v_esc example_halo)) []].
Proof.
  split; [exact keV_units_positive |].
  apply (rate_elastic_negative_energy keV_units keV_units_positive
           example_s_data example_halo example_v_max rectangle_quad (-1)
           50000000 (Fin 1) "SI" PInf None "Xe" 131.293 None [] []);
    [reflexivity | lra | lra | reflexivity].
Defined.
